(** * Movie recommender backend (api/main.py): a shallow embedding

    The backend is one FastAPI module: a [recommend] handler that sends the
    user's preference to a hosted language model, pulls a JSON array out of
    the reply, normalises its elements, stores the result in a SQLite table
    and returns it; and a [get_history] handler that lists the stored rows.

    The embedding follows the module top to bottom.  Python values that the
    handlers touch are an inductive type [value]; a Python [str] is the list
    of its code points; exceptions are an error result; the table is the list
    of its rows in insertion order; the model provider and the clock are a
    [World] record handed to the handler.  The [json] module is modelled by a
    decoder and an encoder written after CPython's [json.decoder],
    [json.scanner] and [json.encoder]. *)

From Stdlib Require Import ZArith NArith List Ascii String Lia.
From stdpp Require Import base tactics list option sorting.

Local Open Scope N_scope.
Set Warnings "-register-all".

(** ** Python strings *)

(** A [str] is a sequence of Unicode code points. *)
Abbreviation char := N (only parsing).
Abbreviation str := (list N) (only parsing).

(** [lit "abc"] is the [str] of an ASCII literal of the source. *)
Definition lit (s : string) : str := map N_of_ascii (list_ascii_of_string s).

Abbreviation TAB := 9 (only parsing).
Abbreviation LF := 10 (only parsing).
Abbreviation CR := 13 (only parsing).
Abbreviation SPACE := 32 (only parsing).
Abbreviation QUOTE := 34 (only parsing).
Abbreviation PLUS := 43 (only parsing).
Abbreviation COMMA := 44 (only parsing).
Abbreviation MINUS := 45 (only parsing).
Abbreviation DOT := 46 (only parsing).
Abbreviation ZERO := 48 (only parsing).
Abbreviation NINE := 57 (only parsing).
Abbreviation COLON := 58 (only parsing).
Abbreviation LBRACKET := 91 (only parsing).
Abbreviation BACKSLASH := 92 (only parsing).
Abbreviation RBRACKET := 93 (only parsing).
Abbreviation LBRACE := 123 (only parsing).
Abbreviation RBRACE := 125 (only parsing).

Module Str.

(** [str.isspace] for one code point: the characters [str.strip()]
    removes (CPython's [Py_UNICODE_ISSPACE]). *)
Definition isspace (c : char) : bool :=
  ((9 <=? c) && (c <=? 13)) || ((28 <=? c) && (c <=? 32))
  || (c =? 133) || (c =? 160) || (c =? 5760)
  || ((8192 <=? c) && (c <=? 8202))
  || (c =? 8232) || (c =? 8233) || (c =? 8239) || (c =? 8287)
  || (c =? 12288).

Fixpoint lstrip (s : str) : str :=
  match s with
  | c :: r => if isspace c then lstrip r else s
  | [] => []
  end.

Definition rstrip (s : str) : str := rev (lstrip (rev s)).

(** [s.strip()] *)
Definition strip (s : str) : str := rstrip (lstrip s).

(** [not s]: a [str] is falsy exactly when it is empty. *)
Definition falsy (s : str) : bool :=
  match s with [] => true | _ => false end.

Fixpoint find_from (c : char) (s : str) (i : Z) : Z :=
  match s with
  | [] => (-1)%Z
  | x :: r => if x =? c then i else find_from c r (i + 1)%Z
  end.

(** [s.find(c)] for a one-character needle: the least index, or -1. *)
Definition find (c : char) (s : str) : Z := find_from c s 0%Z.

Fixpoint rfind_from (c : char) (s : str) (i last : Z) : Z :=
  match s with
  | [] => last
  | x :: r => rfind_from c r (i + 1)%Z (if x =? c then i else last)
  end.

(** [s.rfind(c)] for a one-character needle: the greatest index, or -1. *)
Definition rfind (c : char) (s : str) : Z := rfind_from c s 0%Z (-1)%Z.

(** [s[a:b]] for indices that are not negative (the only slice of the
    module is taken under [start != -1]). *)
Definition slice (s : str) (a b : Z) : str :=
  take (Z.to_nat (b - a)) (drop (Z.to_nat a) s).

Fixpoint startswith (p s : str) : bool :=
  match p, s with
  | [], _ => true
  | a :: p', b :: s' => (a =? b) && startswith p' s'
  | _ :: _, [] => false
  end.

(** [sep.join(l)] for a list of [str]. *)
Fixpoint join (sep : str) (l : list str) : str :=
  match l with
  | [] => []
  | [x] => x
  | x :: r => x ++ sep ++ join sep r
  end.

(** [a == b] *)
Fixpoint eqb (a b : str) : bool :=
  match a, b with
  | [], [] => true
  | x :: a', y :: b' => (x =? y) && eqb a' b'
  | _, _ => false
  end.

End Str.

(** ** Integers as decimal text *)

Module Dec.

(** The digits of [n], most significant first, written with [fuel] steps. *)
Fixpoint digits (fuel : nat) (n : N) (acc : str) : str :=
  match fuel with
  | O => acc
  | S f =>
      let acc' := (ZERO + n mod 10) :: acc in
      if n <? 10 then acc' else digits f (n / 10) acc'
  end.

(** [str(n)] for a natural number. *)
Definition of_N (n : N) : str := digits (S (N.to_nat (N.log2 n))) n [].

(** [str(z)] for a Python [int]. *)
Definition of_Z (z : Z) : str :=
  match z with
  | Zneg p => MINUS :: of_N (Npos p)
  | _ => of_N (Z.to_N z)
  end.

(** ["%0<w>d" % n] for a natural number. *)
Definition pad (w : nat) (n : N) : str :=
  let d := of_N n in replicate (w - length d) ZERO ++ d.

(** [int(s)] for a numeral of the JSON grammar: an optional minus sign and
    ASCII digits. *)
Definition to_N (s : str) : N := fold_left (fun a c => a * 10 + (c - ZERO)) s 0.

Definition to_Z (s : str) : Z :=
  match s with
  | c :: r => if c =? MINUS then (- Z.of_N (to_N r))%Z else Z.of_N (to_N s)
  | [] => 0%Z
  end.

End Dec.

(** ** Exceptions *)

(** The exceptions the module raises or catches, and the two that the
    SQLite driver raises through it, each with its message. *)
Inductive exn : Type :=
| RuntimeError (msg : str)
| ValueError (msg : str)
| JSONDecodeError (msg : str)
| UnicodeEncodeError (msg : str)
| OverflowError (msg : str).

(** [str(e)] *)
Definition exn_str (e : exn) : str :=
  match e with
  | RuntimeError m | ValueError m | JSONDecodeError m
  | UnicodeEncodeError m | OverflowError m => m
  end.

(** A call either returns or raises. *)
Inductive result (A : Type) : Type :=
| Ok (a : A)
| Raise (e : exn).
Arguments Ok {A} a.
Arguments Raise {A} e.

(** ** What is taken from the Python runtime as given

    Binary floating point and the Unicode tables behind [repr] are outside
    the embedding; so is the wording of the decoder's error messages.  The
    handlers only carry floats around, print them, and quote the decoder's
    message, so these are the operations they need. *)
Class Runtime : Type := {
  (** the type of Python [float] values *)
  float : Type;
  (** [float(s)] for a numeral, and for [nan], [inf], [-inf] *)
  float_of_literal : str -> float;
  (** [repr(x)] of a float, which is also [str(x)] *)
  float_repr : float -> str;
  (** the text [json.dumps] writes for a float: its [repr], or [NaN],
      [Infinity], [-Infinity] *)
  float_dumps : float -> str;
  (** [repr(s)] of a [str] *)
  str_repr : str -> str;
  (** [str(e)] of the error that [json.loads(s)] raises on a document [s]
      it rejects *)
  json_error_text : str -> str;
}.

(** ** Time stamps *)

(** A naive [datetime], as [datetime.utcnow()] returns it. *)
Record datetime : Type := {
  year : N; month : N; day : N;
  hour : N; minute : N; second : N; microsecond : N;
}.

(** [d.isoformat()]: [YYYY-MM-DDTHH:MM:SS], followed by [.ffffff] when the
    microseconds are not zero. *)
Definition isoformat (d : datetime) : str :=
  Dec.pad 4 (year d) ++ [MINUS] ++ Dec.pad 2 (month d) ++ [MINUS]
  ++ Dec.pad 2 (day d) ++ [84] ++ Dec.pad 2 (hour d) ++ [COLON]
  ++ Dec.pad 2 (minute d) ++ [COLON] ++ Dec.pad 2 (second d)
  ++ (if microsecond d =? 0 then [] else DOT :: Dec.pad 6 (microsecond d)).

(** The fields from the most significant to the least. *)
Definition dt_fields (d : datetime) : list N :=
  [year d; month d; day d; hour d; minute d; second d; microsecond d].

(** Lexicographic order on field lists of one length. *)
Fixpoint lex_leb (a b : list N) : bool :=
  match a, b with
  | x :: a', y :: b' => (x <? y) || ((x =? y) && lex_leb a' b')
  | _, _ => true
  end.

(** [a <= b] on time stamps, which is also the order of the fixed-width
    text SQLite keeps for a [DateTime] column. *)
Definition dt_leb (a b : datetime) : bool := lex_leb (dt_fields a) (dt_fields b).

(** ** The schema *)

(** [class RecommendRequest(BaseModel)] *)
Module RecommendRequest.
Record t : Type := { user_input : str }.
End RecommendRequest.

(** [class Recommendation(Base)]: a row of the [recommendations] table. *)
Module Recommendation.
Record t : Type := {
  id : Z;
  user_input : str;
  recommended_movies : str;
  created_at : datetime;
}.
End Recommendation.

(** The table, rows in the order they were inserted. *)
Definition store : Type := list Recommendation.t.

(** What a handler hands back to FastAPI: a raised [HTTPException], the
    returned body, or an exception of another kind that the handler lets
    through, to which the framework answers with a bare server error. *)
Inductive http (A : Type) : Type :=
| HTTPException (status_code : Z) (detail : str)
| Return (body : A)
| Unhandled (e : exn).
Arguments HTTPException {A} status_code detail.
Arguments Return {A} body.
Arguments Unhandled {A} e.

(** Outcome of scanning a value at the head of a text: the value and the
    text after it, a rejected text, or a scan cut short by its step budget. *)
Inductive scan (A : Type) : Type :=
| Scanned (a : A) (rest : str)
| Invalid
| Exhausted.
Arguments Scanned {A} a rest.
Arguments Invalid {A}.
Arguments Exhausted {A}.

Section Model.

Context {R : Runtime}.

(** ** Python values *)

(** The values [json.loads] builds, which are also all the values the
    handlers inspect.  A [dict] keeps its items in insertion order. *)
Inductive value : Type :=
| VNone
| VBool (b : bool)
| VInt (z : Z)
| VFloat (x : float)
| VStr (s : str)
| VList (l : list value)
| VDict (d : list (str * value)).

(** [d.get(k)], [None] of the option standing for an absent key. *)
Fixpoint dict_get (d : list (str * value)) (k : str) : option value :=
  match d with
  | [] => None
  | (k', v) :: r => if Str.eqb k' k then Some v else dict_get r k
  end.

(** [k in d] *)
Definition dict_has (d : list (str * value)) (k : str) : bool :=
  match dict_get d k with Some _ => true | None => false end.

(** [d[k] = v]: an existing key keeps its place, a new one goes last. *)
Fixpoint dict_set (d : list (str * value)) (k : str) (v : value)
  : list (str * value) :=
  match d with
  | [] => [(k, v)]
  | (k', v') :: r =>
      if Str.eqb k' k then (k', v) :: r else (k', v') :: dict_set r k v
  end.

(** [dict(pairs)] *)
Definition dict_of_pairs (pairs : list (str * value)) : list (str * value) :=
  fold_left (fun d kv => dict_set d kv.1 kv.2) pairs [].

(** ** [json.loads] *)

(** [WHITESPACE_STR = ' \t\n\r'] *)
Definition is_json_ws (c : char) : bool :=
  (c =? SPACE) || (c =? TAB) || (c =? LF) || (c =? CR).

(** [WHITESPACE.match(s, end).end()] *)
Fixpoint skip_ws (s : str) : str :=
  match s with
  | c :: r => if is_json_ws c then skip_ws r else s
  | [] => []
  end.

Definition hex_digit (c : char) : option N :=
  if (ZERO <=? c) && (c <=? NINE) then Some (c - ZERO)
  else if (65 <=? c) && (c <=? 70) then Some (c - 55)
  else if (97 <=? c) && (c <=? 102) then Some (c - 87)
  else None.

(** [_decode_uXXXX]: the number written by four hexadecimal digits. *)
Definition hex4 (a b c d : char) : option N :=
  match hex_digit a, hex_digit b, hex_digit c, hex_digit d with
  | Some x, Some y, Some z, Some w => Some (((x * 16 + y) * 16 + z) * 16 + w)
  | _, _, _, _ => None
  end.

(** The [BACKSLASH] table of [json.decoder]. *)
Definition unescape (e : char) : option char :=
  if e =? QUOTE then Some QUOTE
  else if e =? BACKSLASH then Some BACKSLASH
  else if e =? 47 then Some 47
  else if e =? 98 then Some 8
  else if e =? 102 then Some 12
  else if e =? 110 then Some LF
  else if e =? 114 then Some CR
  else if e =? 116 then Some TAB
  else None.

Definition is_high_surrogate (u : N) : bool := (55296 <=? u) && (u <=? 56319).
Definition is_low_surrogate (u : N) : bool := (56320 <=? u) && (u <=? 57343).

(** [0x10000 + (((uni - 0xd800) << 10) | (uni2 - 0xdc00))] *)
Definition join_surrogates (u u2 : N) : N :=
  65536 + N.lor (N.shiftl (u - 55296) 10) (u2 - 56320).

Definition scan_cons (c : char) (k : option (str * str)) : option (str * str) :=
  match k with
  | Some (t, rest) => Some (c :: t, rest)
  | None => None
  end.

(** [scanstring(s, end, strict=True)], from just after the opening quote:
    the decoded string and the text after the closing quote. *)
Fixpoint scanstring (s : str) : option (str * str) :=
  match s with
  | [] => None
  | c :: r =>
      if c =? QUOTE then Some ([], r)
      else if c =? BACKSLASH then
        match r with
        | [] => None
        | e :: r1 =>
            if e =? 117 then
              match r1 with
              | a :: b :: c1 :: d :: r2 =>
                  match hex4 a b c1 d with
                  | None => None
                  | Some uni =>
                      let single := scan_cons uni (scanstring r2) in
                      if is_high_surrogate uni then
                        match r2 with
                        | b1 :: u1 :: r3 =>
                            if (b1 =? BACKSLASH) && (u1 =? 117) then
                              match r3 with
                              | a2 :: b2 :: c2 :: d2 :: r4 =>
                                  match hex4 a2 b2 c2 d2 with
                                  | None => None
                                  | Some uni2 =>
                                      if is_low_surrogate uni2
                                      then scan_cons (join_surrogates uni uni2)
                                             (scanstring r4)
                                      else single
                                  end
                              | _ => None
                              end
                            else single
                        | _ => single
                        end
                      else single
                  end
              | _ => None
              end
            else
              match unescape e with
              | None => None
              | Some ch => scan_cons ch (scanstring r1)
              end
        end
      else if c <? 32 then None
      else scan_cons c (scanstring r)
  end.

Definition is_digit (c : char) : bool := (ZERO <=? c) && (c <=? NINE).

(** The longest run of ASCII digits at the head of [s], and what follows. *)
Fixpoint span_digits (s : str) : str * str :=
  match s with
  | c :: r =>
      if is_digit c
      then let '(d, k) := span_digits r in (c :: d, k)
      else ([], s)
  | [] => ([], [])
  end.

(** Group 1 of [NUMBER_RE]: an optional minus sign, then a single zero or
    a digit from 1 to 9 followed by any digits. *)
Definition match_integer (s : str) : option (str * str) :=
  let '(sign, r) :=
    match s with
    | c :: r => if c =? MINUS then ([MINUS], r) else ([], s)
    | [] => ([], s)
    end in
  match r with
  | d :: r' =>
      if d =? ZERO then Some (sign ++ [ZERO], r')
      else if is_digit d
      then let '(ds, k) := span_digits r' in Some (sign ++ d :: ds, k)
      else None
  | [] => None
  end.

(** Group 2 of [NUMBER_RE]: a dot and one or more digits; the empty text
    when absent. *)
Definition match_frac (s : str) : str * str :=
  match s with
  | c :: r =>
      if c =? DOT then
        match span_digits r with
        | ([], _) => ([], s)
        | (ds, k) => (DOT :: ds, k)
        end
      else ([], s)
  | [] => ([], s)
  end.

(** Group 3 of [NUMBER_RE]: [e] or [E], an optional sign and one or more
    digits; the empty text when absent. *)
Definition match_exp (s : str) : str * str :=
  match s with
  | e :: r =>
      if (e =? 101) || (e =? 69) then
        let '(sg, r1) :=
          match r with
          | c :: r1 => if (c =? MINUS) || (c =? PLUS) then ([c], r1) else ([], r)
          | [] => ([], r)
          end in
        match span_digits r1 with
        | ([], _) => ([], s)
        | (ds, k) => (e :: sg ++ ds, k)
        end
      else ([], s)
  | [] => ([], s)
  end.

(** [match_number] followed by the choice between [int] and [float]. *)
Definition scan_number (s : str) : option (value * str) :=
  match match_integer s with
  | None => None
  | Some (integer, r) =>
      let '(frac, r1) := match_frac r in
      let '(exp, r2) := match_exp r1 in
      match frac, exp with
      | [], [] => Some (VInt (Dec.to_Z integer), r2)
      | _, _ => Some (VFloat (float_of_literal (integer ++ frac ++ exp)), r2)
      end
  end.

(** The literals and numbers of [_scan_once], after the cases of a string,
    an object and an array. *)
Definition scan_atom (s : str) : scan value :=
  if Str.startswith (lit "null") s then Scanned VNone (drop 4 s)
  else if Str.startswith (lit "true") s then Scanned (VBool true) (drop 4 s)
  else if Str.startswith (lit "false") s then Scanned (VBool false) (drop 5 s)
  else
    match scan_number s with
    | Some (v, r) => Scanned v r
    | None =>
        if Str.startswith (lit "NaN") s
        then Scanned (VFloat (float_of_literal (lit "nan"))) (drop 3 s)
        else if Str.startswith (lit "Infinity") s
        then Scanned (VFloat (float_of_literal (lit "inf"))) (drop 8 s)
        else if Str.startswith (lit "-Infinity") s
        then Scanned (VFloat (float_of_literal (lit "-inf"))) (drop 9 s)
        else Invalid
    end.

(** [_scan_once], with [JSONArray] and [JSONObject] from their first item
    on.  Each call spends one unit of [fuel]. *)
Fixpoint scan_once (fuel : nat) (s : str) {struct fuel} : scan value :=
  match fuel with
  | O => Exhausted
  | S n =>
      match s with
      | [] => Invalid
      | c :: r =>
          if c =? QUOTE then
            match scanstring r with
            | Some (t, k) => Scanned (VStr t) k
            | None => Invalid
            end
          else if c =? LBRACE then
            match skip_ws r with
            | c1 :: r1 =>
                if c1 =? RBRACE then Scanned (VDict []) r1
                else if c1 =? QUOTE then
                  match object_items n r1 with
                  | Scanned pairs k => Scanned (VDict (dict_of_pairs pairs)) k
                  | Invalid => Invalid
                  | Exhausted => Exhausted
                  end
                else Invalid
            | [] => Invalid
            end
          else if c =? LBRACKET then
            match skip_ws r with
            | c1 :: r1 =>
                if c1 =? RBRACKET then Scanned (VList []) r1
                else
                  match array_items n (c1 :: r1) with
                  | Scanned vs k => Scanned (VList vs) k
                  | Invalid => Invalid
                  | Exhausted => Exhausted
                  end
            | [] => Invalid
            end
          else scan_atom s
      end
  end

(** The loop of [JSONArray]: a value, then [']'] or [','] and the rest. *)
with array_items (fuel : nat) (s : str) {struct fuel} : scan (list value) :=
  match fuel with
  | O => Exhausted
  | S n =>
      match scan_once n s with
      | Scanned v r =>
          match skip_ws r with
          | c :: r1 =>
              if c =? RBRACKET then Scanned [v] r1
              else if c =? COMMA then
                match array_items n (skip_ws r1) with
                | Scanned vs k => Scanned (v :: vs) k
                | Invalid => Invalid
                | Exhausted => Exhausted
                end
              else Invalid
          | [] => Invalid
          end
      | Invalid => Invalid
      | Exhausted => Exhausted
      end
  end

(** The loop of [JSONObject], from just after the opening quote of a key:
    the key, [':'], a value, then ['}'] or [','] and the next key. *)
with object_items (fuel : nat) (s : str) {struct fuel}
  : scan (list (str * value)) :=
  match fuel with
  | O => Exhausted
  | S n =>
      match scanstring s with
      | None => Invalid
      | Some (key, r) =>
          match skip_ws r with
          | c :: r1 =>
              if c =? COLON then
                match scan_once n (skip_ws r1) with
                | Scanned v r2 =>
                    match skip_ws r2 with
                    | c2 :: r3 =>
                        if c2 =? RBRACE then Scanned [(key, v)] r3
                        else if c2 =? COMMA then
                          match skip_ws r3 with
                          | c3 :: r4 =>
                              if c3 =? QUOTE then
                                match object_items n r4 with
                                | Scanned ps k => Scanned ((key, v) :: ps) k
                                | Invalid => Invalid
                                | Exhausted => Exhausted
                                end
                              else Invalid
                          | [] => Invalid
                          end
                        else Invalid
                    | [] => Invalid
                    end
                | Invalid => Invalid
                | Exhausted => Exhausted
                end
              else Invalid
          | [] => Invalid
          end
      end
  end.

(** Steps that scanning a text of this length can take at most. *)
Definition scan_budget (s : str) : nat := 2 * length s + 2.

(** [JSONDecoder.decode]: one value between optional white space, and
    nothing after it.  The limits of the interpreter, its recursion depth
    and its cap on the digits of an integer numeral, are not part of the
    embedding: a text is refused for its syntax only. *)
Definition decode (s : str) : option value :=
  match scan_once (scan_budget s) (skip_ws s) with
  | Scanned v r => match skip_ws r with [] => Some v | _ => None end
  | _ => None
  end.

(** [json.loads(s)] for a [str]: a text that starts with a byte order mark
    is refused, everything else goes to the decoder. *)
Definition json_loads (s : str) : result value :=
  if Str.startswith [65279] s then Raise (JSONDecodeError (json_error_text s))
  else
    match decode s with
    | Some v => Ok v
    | None => Raise (JSONDecodeError (json_error_text s))
    end.

(** ** [json.dumps(obj, ensure_ascii=False)] *)

Definition hex_char (n : N) : char := if n <? 10 then ZERO + n else 87 + n.

(** [ESCAPE_DCT] applied to the characters [ESCAPE] matches: the two-letter
    escapes, [\u00xx] for the other control characters, and every other
    character as it is. *)
Definition escape_char (c : char) : str :=
  if c =? BACKSLASH then [BACKSLASH; BACKSLASH]
  else if c =? QUOTE then [BACKSLASH; QUOTE]
  else if c =? 8 then [BACKSLASH; 98]
  else if c =? 12 then [BACKSLASH; 102]
  else if c =? LF then [BACKSLASH; 110]
  else if c =? CR then [BACKSLASH; 114]
  else if c =? TAB then [BACKSLASH; 116]
  else if c <? 32
  then [BACKSLASH; 117; ZERO; ZERO; hex_char (c / 16); hex_char (c mod 16)]
  else [c].

(** [encode_basestring] *)
Definition encode_basestring (s : str) : str :=
  QUOTE :: flat_map escape_char s ++ [QUOTE].

(** The encoder with its default separators [', '] and [': ']. *)
Fixpoint json_dumps (v : value) : str :=
  match v with
  | VNone => lit "null"
  | VBool true => lit "true"
  | VBool false => lit "false"
  | VInt z => Dec.of_Z z
  | VFloat x => float_dumps x
  | VStr s => encode_basestring s
  | VList l => [LBRACKET] ++ Str.join (lit ", ") (map json_dumps l) ++ [RBRACKET]
  | VDict d =>
      [LBRACE]
      ++ Str.join (lit ", ")
           (map (fun kv => encode_basestring kv.1 ++ lit ": " ++ json_dumps kv.2) d)
      ++ [RBRACE]
  end.

(** ** [str()] *)

(** [repr(v)] *)
Fixpoint py_repr (v : value) : str :=
  match v with
  | VNone => lit "None"
  | VBool true => lit "True"
  | VBool false => lit "False"
  | VInt z => Dec.of_Z z
  | VFloat x => float_repr x
  | VStr s => str_repr s
  | VList l => [LBRACKET] ++ Str.join (lit ", ") (map py_repr l) ++ [RBRACKET]
  | VDict d =>
      [LBRACE]
      ++ Str.join (lit ", ")
           (map (fun kv => str_repr kv.1 ++ lit ": " ++ py_repr kv.2) d)
      ++ [RBRACE]
  end.

(** [str(v)]: a [str] is itself, every other value is its [repr]. *)
Definition py_str (v : value) : str :=
  match v with
  | VStr s => s
  | _ => py_repr v
  end.

(** ** The model provider and the clock *)

(** The keyword arguments of [client.responses.create]. *)
Record Request : Type := {
  model : str;
  input : list (str * str);
  max_output_tokens : Z;
  temperature : float;
}.

(** The two attributes of the response object that the helper reads. *)
Record Response : Type := {
  output_text : option str;
  output : list value;
}.

(** What the call did: it raised an exception whose [str] is [msg], or it
    returned. *)
Inductive reply : Type :=
| Failed (msg : str)
| Replied (resp : Response).

(** The surroundings of one request: the provider's answer to each call and
    the reading of the clock. *)
Record World : Type := {
  responses_create : Request -> reply;
  utcnow : datetime;
}.

(** ** [ask_openai_for_movies] *)

Definition system_prompt : str :=
  lit "You are a helpful movie recommendation assistant. "
  ++ lit "When given a user's preference, return a JSON array with 3 to 5 movie objects. "
  ++ lit "Each object must contain at least 'title' (string). Optionally include 'year' and a one-sentence 'reason'. "
  ++ lit "IMPORTANT: respond ONLY with valid JSON (an array). Do not add extra commentary or markdown.".

Definition user_prompt (user_input : str) : str :=
  lit "User preference: " ++ user_input ++ [LF]
  ++ lit "Return 3-5 movie suggestions as a JSON array.".

Definition make_request (user_input : str) : Request :=
  {| model := lit "gpt-3.5-turbo";
     input := [(lit "system", system_prompt); (lit "user", user_prompt user_input)];
     max_output_tokens := 500;
     temperature := float_of_literal (lit "0.8") |}.

(** The pieces one item of [resp.output] contributes in the fallback loop. *)
Definition item_pieces (item : value) : list value :=
  match item with
  | VDict d =>
      match dict_get d (lit "content") with
      | Some (VList content) =>
          flat_map
            (fun c =>
               match c with
               | VDict cd =>
                   match dict_get cd (lit "text") with
                   | Some t => [t]
                   | None => []
                   end
               | _ => []
               end)
            content
      | _ => []
      end
  | VStr s => [VStr s]
  | _ => []
  end.

(** [sep.join(pieces)], which raises [TypeError] on a piece that is not a
    [str]; [None] stands for the raise. *)
Fixpoint join_pieces (pieces : list value) : option (list str) :=
  match pieces with
  | [] => Some []
  | VStr s :: r =>
      match join_pieces r with
      | Some l => Some (s :: l)
      | None => None
      end
  | _ :: _ => None
  end.

(** Lines 88 to 103: the stripped [output_text], or when that is empty the
    text gathered from [resp.output], [""] if gathering raises. *)
Definition response_text (resp : Response) : str :=
  let text := Str.strip (default [] (output_text resp)) in
  if Str.falsy text then
    match join_pieces (flat_map item_pieces (output resp)) with
    | Some l => Str.strip (Str.join [LF] l)
    | None => []
    end
  else text.

(** [json.loads(s)] followed by the [isinstance(parsed, list)] check that
    raises [ValueError(msg)]. *)
Definition loads_list (msg : str) (s : str) : result (list value) :=
  match json_loads s with
  | Ok (VList l) => Ok l
  | Ok _ => Raise (ValueError msg)
  | Raise e => Raise e
  end.

(** Lines 108 to 127: the text parsed as it is, else the part from the
    first ['['] to the last [']']. *)
Definition extract_array (text : str) : result (list value) :=
  match loads_list (lit "Parsed JSON is not a list") text with
  | Ok parsed => Ok parsed
  | Raise _ =>
      let start := Str.find LBRACKET text in
      let end_ := Str.rfind RBRACKET text in
      if negb (start =? -1)%Z && negb (end_ =? -1)%Z && (start <? end_)%Z then
        let json_str := Str.slice text start (end_ + 1) in
        match loads_list (lit "Parsed JSON substring is not a list") json_str with
        | Ok parsed => Ok parsed
        | Raise e =>
            Raise (RuntimeError
                     (lit "Failed to parse JSON from model response: "
                      ++ exn_str e ++ [LF] ++ lit "Raw response: " ++ text))
        end
      else
        Raise (RuntimeError
                 (lit "Model response did not contain a JSON array. Raw response: "
                  ++ text))
  end.

Definition ask_openai_for_movies (w : World) (user_input : str)
  : result (list value) :=
  match responses_create w (make_request user_input) with
  | Failed e => Raise (RuntimeError (lit "OpenAI API request failed: " ++ e))
  | Replied resp =>
      let text := response_text resp in
      if Str.falsy text then Raise (RuntimeError (lit "OpenAI response was empty"))
      else extract_array text
  end.

(** ** [recommend] *)

Definition optional (o : option str) : value :=
  match o with
  | Some s => VStr s
  | None => VNone
  end.

(** The [dict] literal of lines 145 to 149 and of line 153. *)
Definition suggestion (title : str) (year reason : option str) : value :=
  VDict [(lit "title", VStr title);
         (lit "year", optional year);
         (lit "reason", optional reason)].

(** [str(d.get(k)) if d.get(k) is not None else None] *)
Definition str_or_none (d : list (str * value)) (k : str) : option str :=
  match dict_get d k with
  | None | Some VNone => None
  | Some v => Some (py_str v)
  end.

(** One turn of the loop of lines 143 to 153: what it appends to
    [normalized]. *)
Definition normalize_item (item : value) : list value :=
  match item with
  | VDict d =>
      if dict_has d (lit "title") then
        [suggestion
           (Str.strip (py_str (default (VStr []) (dict_get d (lit "title")))))
           (str_or_none d (lit "year"))
           (str_or_none d (lit "reason"))]
      else []
  | VStr s => [suggestion (Str.strip s) None None]
  | _ => []
  end.

(** The loop itself, [normalized] being the accumulator. *)
Definition normalize (movie_list : list value) : list value :=
  fold_left (fun normalized item => normalized ++ normalize_item item)
    movie_list [].

(** The key SQLite gives a new row: one more than the largest in use. *)
Definition next_id (db : store) : Z :=
  (1 + fold_right Z.max 0 (map Recommendation.id db))%Z.

(** The row that the commit inserts, at the end of the table. *)
Definition insert_row (db : store) (user_input recommended_movies : str)
    (created_at : datetime) : store :=
  db ++ [{| Recommendation.id := next_id db;
            Recommendation.user_input := user_input;
            Recommendation.recommended_movies := recommended_movies;
            Recommendation.created_at := created_at |}].

Definition is_surrogate (c : char) : bool := (55296 <=? c) && (c <=? 57343).

(** A text that UTF-8 can carry: one with no surrogate code point in it. *)
Definition utf8_encodable (s : str) : bool :=
  forallb (fun c => negb (is_surrogate c)) s.

(** The surrogates at the head of [s], counted. *)
Fixpoint surrogate_run (s : str) : nat :=
  match s with
  | c :: r => if is_surrogate c then S (surrogate_run r) else O
  | [] => O
  end.

(** Where the first surrogate of [s] is, counting from [i]; which it is;
    and how many follow on without a break, itself counted. *)
Fixpoint first_surrogate (s : str) (i : N) : option (N * char * nat) :=
  match s with
  | [] => None
  | c :: r =>
      if is_surrogate c then Some (i, c, surrogate_run s)
      else first_surrogate r (i + 1)
  end.

(** [str(e)] of the [UnicodeEncodeError] of the strict UTF-8 codec on
    [s]. *)
Definition encode_error_text (s : str) : str :=
  match first_surrogate s 0 with
  | Some (i, c, 1%nat) =>
      lit "'utf-8' codec can't encode character '\u"
      ++ [hex_char (c / 4096); hex_char ((c / 256) mod 16);
          hex_char ((c / 16) mod 16); hex_char (c mod 16)]
      ++ lit "' in position " ++ Dec.of_N i ++ lit ": surrogates not allowed"
  | Some (i, _, k) =>
      lit "'utf-8' codec can't encode characters in position "
      ++ Dec.of_N i ++ [MINUS] ++ Dec.of_N (i + N.of_nat k - 1)
      ++ lit ": surrogates not allowed"
  | None => []
  end.

(** [db.add(rec); db.commit()].  The driver encodes the texts of the row as
    UTF-8 and raises where it cannot, in which case no row is stored.  The
    list can hold a surrogate, taken from an escape in the model's reply;
    the [user_input] is text that the request model has accepted as well
    formed.  The engine's bound on the length of a text, like the limits of
    the interpreter, is beyond the embedding. *)
Definition db_add (db : store) (user_input recommended_movies : str)
    (created_at : datetime) : result store :=
  if utf8_encodable recommended_movies
  then Ok (insert_row db user_input recommended_movies created_at)
  else Raise (UnicodeEncodeError (encode_error_text recommended_movies)).

(** [POST /recommend]: the response and the table afterwards. *)
Definition recommend (w : World) (payload : RecommendRequest.t) (db : store)
  : http (list value) * store :=
  let user_input := RecommendRequest.user_input payload in
  if Str.falsy user_input || Str.falsy (Str.strip user_input) then
    (HTTPException 400 (lit "user_input must be a non-empty string"), db)
  else
    match ask_openai_for_movies w user_input with
    | Raise e => (HTTPException 500 (exn_str e), db)
    | Ok movie_list =>
        let normalized := normalize movie_list in
        match db_add db (Str.strip user_input) (json_dumps (VList normalized))
                (utcnow w) with
        | Ok db' => (Return normalized, db')
        | Raise e => (Unhandled e, db)
        end
    end.

(** ** [get_history] *)

(** An element of [results]. *)
Record HistoryItem : Type := {
  h_id : Z;
  h_user_input : str;
  h_recommended_movies : value;
  h_created_at : str;
}.

(** [ORDER BY created_at DESC]: the later time stamp first. *)
Definition newer_first (a b : Recommendation.t) : Prop :=
  dt_leb (Recommendation.created_at b) (Recommendation.created_at a) = true.

#[global] Instance newer_first_dec : RelDecision newer_first.
Proof. intros a b. unfold newer_first. apply _. Defined.

(** The query's [order_by]: the rows sorted with the newest first.  Which
    of two rows with one time stamp comes first is up to the engine; the
    sort chosen here is one such order. *)
Definition order_by_created_at_desc (rows : store) : store :=
  merge_sort newer_first rows.

(** The integers that SQLite can hold: those of 64 bits, signed. *)
Definition fits_int64 (n : Z) : bool :=
  (-9223372036854775808 <=? n)%Z && (n <=? 9223372036854775807)%Z.

(** What [LIMIT n] keeps of the rows in SQLite: the first [n], and every
    row when [n] is negative. *)
Definition limit_rows (n : Z) (rows : store) : store :=
  if (n <? 0)%Z then rows else take (Z.to_nat n) rows.

(** The query's [limit]: the driver binds [n] as a 64-bit integer and
    raises on an [n] that does not fit. *)
Definition sql_limit (n : Z) (rows : store) : result store :=
  if fits_int64 n then Ok (limit_rows n rows)
  else Raise (OverflowError
                (lit "Python int too large to convert to SQLite INTEGER")).

(** The body of the loop of lines 172 to 178. *)
Definition history_item (r : Recommendation.t) : result HistoryItem :=
  match json_loads (Recommendation.recommended_movies r) with
  | Ok movies =>
      Ok {| h_id := Recommendation.id r;
            h_user_input := Recommendation.user_input r;
            h_recommended_movies := movies;
            h_created_at := isoformat (Recommendation.created_at r) |}
  | Raise e => Raise e
  end.

Fixpoint history_items (rows : store) : result (list HistoryItem) :=
  match rows with
  | [] => Ok []
  | r :: rest =>
      match history_item r with
      | Raise e => Raise e
      | Ok item =>
          match history_items rest with
          | Raise e => Raise e
          | Ok out => Ok (item :: out)
          end
      end
  end.

(** [GET /history?limit=N]; the table is only read. *)
Definition get_history (limit : Z) (db : store) : result (list HistoryItem) :=
  match sql_limit limit (order_by_created_at_desc db) with
  | Ok rows => history_items rows
  | Raise e => Raise e
  end.

(** The default of the [limit] parameter. *)
Definition default_limit : Z := 20.

End Model.

(** ** A runtime to run examples with

    Floats are kept as the numerals they were read from, a [str] is quoted
    the way [repr] quotes text without quotes, backslashes or unprintable
    characters, and the decoder's message is the one for a text with no
    value at its start.  The examples below use no float arithmetic. *)
Definition literal_runtime : Runtime :=
  {| float := str;
     float_of_literal := fun s => s;
     float_repr := fun s => s;
     float_dumps := fun s => s;
     str_repr := fun s => [39] ++ s ++ [39];
     json_error_text := fun _ => lit "Expecting value: line 1 column 1 (char 0)" |}.

(** A world whose provider answers every call with the text [t]. *)
Definition answering {R : Runtime} (t : str) (now : datetime) : World :=
  {| responses_create := fun _ => Replied {| output_text := Some t; output := [] |};
     utcnow := now |}.

(** A world whose provider call raises. *)
Definition failing {R : Runtime} (msg : str) (now : datetime) : World :=
  {| responses_create := fun _ => Failed msg; utcnow := now |}.

Definition noon : datetime :=
  {| year := 2024; month := 5; day := 17;
     hour := 12; minute := 0; second := 0; microsecond := 0 |}.

(** A JSON string literal of an ASCII text without quotes or backslashes. *)
Definition quoted (s : string) : str := [QUOTE] ++ lit s ++ [QUOTE].

(** An object reply: [[{"title": " Heat ", "year": 1995, "reason": null}]] *)
Definition object_reply : str :=
  lit "[{" ++ quoted "title" ++ lit ": " ++ quoted " Heat " ++ lit ", "
  ++ quoted "year" ++ lit ": 1995, " ++ quoted "reason" ++ lit ": null}]".

Definition evening : datetime :=
  {| year := 2024; month := 5; day := 17;
     hour := 19; minute := 30; second := 0; microsecond := 250000 |}.

Definition morning : datetime :=
  {| year := 2024; month := 5; day := 17;
     hour := 8; minute := 15; second := 0; microsecond := 0 |}.

(** A reply that wraps its array in prose: [Here you go: [" Heat ", 7] Enjoy!] *)
Definition prose_reply : str :=
  lit "Here you go: [" ++ [QUOTE] ++ lit " Heat " ++ [QUOTE] ++ lit ", 7] Enjoy!".

(** The part of it between the brackets, brackets included. *)
Definition prose_array : str :=
  [LBRACKET; QUOTE] ++ lit " Heat " ++ [QUOTE] ++ lit ", 7]".

Definition prose_response {R : Runtime} : Response :=
  {| output_text := Some prose_reply; output := [] |}.

Definition crime_payload : RecommendRequest.t :=
  {| RecommendRequest.user_input := lit " crime " |}.

Definition heist_payload : RecommendRequest.t :=
  {| RecommendRequest.user_input := lit "heist" |}.

Definition blank_payload : RecommendRequest.t :=
  {| RecommendRequest.user_input := [SPACE; TAB; 160] |}.

(** The row that [crime_payload] leaves in an empty table when the reply is
    [prose_reply]. *)
Definition crime_row {R : Runtime} : Recommendation.t :=
  {| Recommendation.id := 1;
     Recommendation.user_input := lit "crime";
     Recommendation.recommended_movies :=
       json_dumps (VList [suggestion (lit "Heat") None None]);
     Recommendation.created_at := noon |}.

(** A second row, stored in the evening of the same day. *)
Definition later_row {R : Runtime} : Recommendation.t :=
  {| Recommendation.id := 2;
     Recommendation.user_input := lit "heist";
     Recommendation.recommended_movies := json_dumps (VList []);
     Recommendation.created_at := evening |}.

(** A reply with a non-string text piece beside a good one, and no visible
    [output_text]. *)
Definition bad_piece_response {R : Runtime} : Response :=
  {| output_text := None;
     output := [VStr (lit "[]");
                VDict [(lit "content", VList [VDict [(lit "text", VInt 7)]])]] |}.

(** A reply whose array holds half of a surrogate pair, escaped:
    [Here: ["\ud83d"]] *)
Definition surrogate_reply : str :=
  lit "Here: [" ++ [QUOTE] ++ lit "\ud83d" ++ [QUOTE] ++ lit "]".

(** The user message of a request: the content of the second of its two
    messages. *)
Definition user_message {R : Runtime} (rq : Request) : str :=
  match input rq with
  | [_; (_, content)] => content
  | _ => []
  end.

(** A world whose provider call raises with the user message it was sent
    for a message. *)
Definition echoing {R : Runtime} (now : datetime) : World :=
  {| responses_create := fun rq => Failed (user_message rq); utcnow := now |}.

(** * The vocabulary of the properties *)

Section Vocabulary.

Context {R : Runtime}.

(** An input with nothing in it but white space, the empty input included. *)
Definition only_whitespace (s : str) : bool := forallb Str.isspace s.

(** The escaped text of a string, between the quotes. *)
Definition esc (s : str) : str := flat_map escape_char s.

(** A [dict] with the three keys of a [MovieSuggestion], the title a
    [str], the year and the reason each a [str] or [None]. *)
Definition is_suggestion (v : value) : Prop :=
  exists title year reason, v = suggestion title year reason.

(** ** Normalisation, told as a relation *)

(** The elements that normalisation keeps: a [dict] with a [title] key, and
    a [str]. *)
Definition kept (item : value) : bool :=
  match item with
  | VDict d => dict_has d (lit "title")
  | VStr _ => true
  | _ => false
  end.

(** A field read with [get] and turned into text: [None] when the key is
    absent or holds [None]. *)
Definition coerced (o : option value) : option str :=
  match o with
  | None | Some VNone => None
  | Some v => Some (py_str v)
  end.

(** [normalizes f items out]: [out] is what is kept of [items], in order,
    the title text of each kept element passed through [f]. *)
Inductive normalizes (f : str -> str) : list value -> list value -> Prop :=
| normalizes_nil :
    normalizes f [] []
| normalizes_dict d v items out :
    dict_get d (lit "title") = Some v ->
    normalizes f items out ->
    normalizes f (VDict d :: items)
      (suggestion (f (py_str v)) (coerced (dict_get d (lit "year")))
         (coerced (dict_get d (lit "reason"))) :: out)
| normalizes_str s items out :
    normalizes f items out ->
    normalizes f (VStr s :: items) (suggestion (f s) None None :: out)
| normalizes_drop item items out :
    kept item = false ->
    normalizes f items out ->
    normalizes f (item :: items) out.

(** ** Extraction, told without indices *)

(** [sub] is the part of [text] from its first ['['] to its last [']']. *)
Definition bracketed (text sub : str) : Prop :=
  exists pre mid post,
    text = pre ++ LBRACKET :: mid ++ RBRACKET :: post
    /\ ~ In LBRACKET pre /\ ~ In RBRACKET post
    /\ sub = LBRACKET :: mid ++ [RBRACKET].

(** [text] is a JSON array with the elements [l]. *)
Definition is_array (text : str) (l : list value) : Prop :=
  json_loads text = Ok (VList l).

(** The array [l] can be recovered from [text]: the text is the array, or
    it is not an array and its bracketed part is. *)
Definition recoverable (text : str) (l : list value) : Prop :=
  is_array text l
  \/ ((forall l0, ~ is_array text l0)
      /\ exists sub, bracketed text sub /\ is_array sub l).

(** The upstream and parse failures of a request: the call raised, or no
    text came back, or no array can be recovered from the text. *)
Definition upstream_failure (w : World) (user_input : str) : Prop :=
  match responses_create w (make_request user_input) with
  | Failed _ => True
  | Replied resp =>
      response_text resp = [] \/ forall l, ~ recoverable (response_text resp) l
  end.

(** [upstream_error w user_input detail]: the request meets an upstream or
    parse failure, and [detail] is the message of the error. *)
Inductive upstream_error (w : World) (user_input : str) : str -> Prop :=
| call_failed msg :
    responses_create w (make_request user_input) = Failed msg ->
    upstream_error w user_input (lit "OpenAI API request failed: " ++ msg)
| empty_text resp :
    responses_create w (make_request user_input) = Replied resp ->
    response_text resp = [] ->
    upstream_error w user_input (lit "OpenAI response was empty")
| no_brackets resp :
    responses_create w (make_request user_input) = Replied resp ->
    response_text resp <> [] ->
    (forall l, ~ is_array (response_text resp) l) ->
    (forall sub, ~ bracketed (response_text resp) sub) ->
    upstream_error w user_input
      (lit "Model response did not contain a JSON array. Raw response: "
       ++ response_text resp)
| bad_brackets resp sub e :
    responses_create w (make_request user_input) = Replied resp ->
    response_text resp <> [] ->
    (forall l, ~ is_array (response_text resp) l) ->
    bracketed (response_text resp) sub ->
    loads_list (lit "Parsed JSON substring is not a list") sub = Raise e ->
    upstream_error w user_input
      (lit "Failed to parse JSON from model response: " ++ exn_str e ++ [LF]
       ++ lit "Raw response: " ++ response_text resp).

(** ** The service as a state machine *)

Inductive request : Type :=
| Recommend (w : World) (payload : RecommendRequest.t)
| History (limit : Z).

(** The table after a request. *)
Definition handle (db : store) (rq : request) : store :=
  match rq with
  | Recommend w payload => (recommend w payload db).2
  | History _ => db
  end.

(** The table after a sequence of requests, starting from the empty table
    that [create_all] makes. *)
Definition run (rqs : list request) : store := fold_left handle rqs [].

(** The stored text of a row reads back as a list of suggestion records. *)
Definition well_formed_row (r : Recommendation.t) : Prop :=
  exists l, json_loads (Recommendation.recommended_movies r) = Ok (VList l)
            /\ Forall is_suggestion l.

(** The history element [h] shows the row [r]. *)
Definition shows (r : Recommendation.t) (h : HistoryItem) : Prop :=
  h_id h = Recommendation.id r
  /\ h_user_input h = Recommendation.user_input r
  /\ json_loads (Recommendation.recommended_movies r) = Ok (h_recommended_movies h)
  /\ h_created_at h = isoformat (Recommendation.created_at r).

(** ** Statements that the code does not meet as they are worded *)

(** Normalisation that leaves the title text as it is. *)
Definition titles_untouched (items : list value) : Prop :=
  normalizes (fun s => s) items (normalize items).

(** As many recommendations as the array has elements. *)
Definition equal_length (w : World) (payload : RecommendRequest.t) (db : store) : Prop :=
  forall movie_list body db',
    ask_openai_for_movies w (RecommendRequest.user_input payload) = Ok movie_list ->
    recommend w payload db = (Return body, db') ->
    length body = length movie_list.

(** At most [limit] elements in the history. *)
Definition at_most (limit : Z) (db : store) : Prop :=
  forall out, get_history limit db = Ok out -> (Z.of_nat (length out) <= limit)%Z.

(** The row stored by a successful call holds the submitted text as it
    came. *)
Definition raw_input_persisted (w : World) (payload : RecommendRequest.t) (db : store) : Prop :=
  forall body db',
    recommend w payload db = (Return body, db') ->
    exists r, last db' = Some r
              /\ Recommendation.user_input r = RecommendRequest.user_input payload.

End Vocabulary.

(** * More vocabulary *)

(** A text with no white space at its first and at its last place; the empty
    text among them. *)
Definition trimmed (s : str) : bool :=
  match s, rev s with
  | c :: _, d :: _ => negb (Str.isspace c) && negb (Str.isspace d)
  | _, _ => true
  end.

(** No control character, raw: every code point is at least a space. *)
Definition printable_line (s : str) : bool := forallb (fun c => 32 <=? c) s.

(** [a] is later than [b], strictly. *)
Definition later (a b : datetime) : bool := negb (dt_leb a b).

(** A suggestion record whose title has no white space at its ends. *)
Definition neat_suggestion {R : Runtime} (v : value) : Prop :=
  exists title year reason,
    v = suggestion title year reason /\ trimmed title = true.

(** A reply object has, somewhere in [output], a content piece whose
    [text] is not a [str]. *)
Definition has_bad_piece {R : Runtime} (resp : Response) : Prop :=
  exists d content cd v,
    In (VDict d) (output resp)
    /\ dict_get d (lit "content") = Some (VList content)
    /\ In (VDict cd) content
    /\ dict_get cd (lit "text") = Some v
    /\ forall s, v <> VStr s.

(** ** Example services *)

(** Three calls that return, the first in the evening, the second in the
    morning before and the third at noon in between: the rows are not
    stored in the order of their time stamps. *)
Definition three_calls {R : Runtime} : list request :=
  [Recommend (answering prose_reply evening) crime_payload;
   Recommend (answering object_reply morning) heist_payload;
   Recommend (answering (lit "[]") noon) crime_payload].

(** * Properties *)

(** ** Strings *)

Lemma eqb_eq (a b : str) : Str.eqb a b = true <-> a = b.
Proof.
  revert b. induction a as [|x a IH]; intros [|y b]; simpl; try easy.
  rewrite andb_true_iff, N.eqb_eq, IH. split.
  - intros [-> ->]. reflexivity.
  - intros [= -> ->]. auto.
Qed.

Lemma lstrip_blank (s : str) : forallb Str.isspace s = true -> Str.lstrip s = [].
Proof.
  induction s as [|c s IH]; simpl; [reflexivity|].
  intros [Hc Hs]%andb_true_iff. rewrite Hc. auto.
Qed.

Lemma strip_blank (s : str) : forallb Str.isspace s = true -> Str.strip s = [].
Proof. intros H. unfold Str.strip. rewrite lstrip_blank by assumption. reflexivity. Qed.

Lemma lstrip_nil_blank (s : str) : Str.lstrip s = [] -> forallb Str.isspace s = true.
Proof.
  induction s as [|c s IH]; simpl; [reflexivity|].
  destruct (Str.isspace c); [assumption | discriminate].
Qed.

Lemma strip_nil_blank (s : str) : Str.strip s = [] -> forallb Str.isspace s = true.
Proof.
  unfold Str.strip, Str.rstrip. intros H.
  assert (Hr : Str.lstrip (rev (Str.lstrip s)) = []).
  { destruct (Str.lstrip (rev (Str.lstrip s))) as [|a l]; [reflexivity|].
    simpl in H. destruct (rev l); discriminate. }
  apply lstrip_nil_blank in Hr.
  assert (Hl : forallb Str.isspace (Str.lstrip s) = true).
  { rewrite forallb_forall in *. intros x Hx. apply Hr. apply in_rev.
    rewrite rev_involutive. assumption. }
  clear H Hr. induction s as [|c s IH]; simpl in *; [reflexivity|].
  destruct (Str.isspace c) eqn:Hc; simpl; [auto|].
  simpl in Hl. rewrite Hc in Hl. discriminate.
Qed.

(** The guard of line 132 fires exactly on the inputs made of white space
    only, the empty one among them. *)
Lemma guard_blank (s : str) :
  Str.falsy s || Str.falsy (Str.strip s) = forallb Str.isspace s.
Proof.
  destruct (forallb Str.isspace s) eqn:H.
  - rewrite (strip_blank s H). simpl. apply orb_true_r.
  - destruct s as [|c s]; [discriminate|]. simpl.
    destruct (Str.strip (c :: s)) eqn:E; [|reflexivity].
    apply strip_nil_blank in E. congruence.
Qed.

(** ** Reading back what the encoder wrote *)

Section Codec.

Context {R : Runtime}.

(** A control character, escaped, is read back as itself. *)
Lemma escape_control (c : char) (k : str) :
  c < 32 -> scanstring (escape_char c ++ k) = scan_cons c (scanstring k).
Proof.
  intros H.
  assert (E : c = N.of_nat (N.to_nat c)) by (symmetry; apply N2Nat.id).
  assert (Hn : (N.to_nat c < 32)%nat) by lia.
  revert E Hn. generalize (N.to_nat c). intros n -> Hn.
  do 32 (destruct n as [|n]; [reflexivity|]). lia.
Qed.

(** So is every other character. *)
Lemma escape_plain (c : char) (k : str) :
  32 <= c -> scanstring (escape_char c ++ k) = scan_cons c (scanstring k).
Proof.
  intros H. unfold escape_char.
  destruct (c =? 92) eqn:E1; [apply N.eqb_eq in E1; subst; reflexivity|].
  destruct (c =? 34) eqn:E2; [apply N.eqb_eq in E2; subst; reflexivity|].
  assert ((c <? 32) = false) as E3 by (apply N.ltb_ge; assumption).
  repeat match goal with
  | |- context [?x =? ?y] =>
      let E := fresh in destruct (x =? y) eqn:E; [apply N.eqb_eq in E; lia|]
  end.
  rewrite E3. simpl. rewrite E2, E1, E3. reflexivity.
Qed.

Lemma scanstring_escape_char (c : char) (k : str) :
  scanstring (escape_char c ++ k) = scan_cons c (scanstring k).
Proof.
  destruct (N.lt_ge_cases c 32); [apply escape_control | apply escape_plain]; assumption.
Qed.

(** The scanner undoes the escaping of a whole string. *)
Lemma scanstring_encode (s k : str) :
  scanstring (flat_map escape_char s ++ QUOTE :: k) = Some (s, k).
Proof.
  induction s as [|c s IH]; simpl; [reflexivity|].
  rewrite <- app_assoc, scanstring_escape_char, IH. reflexivity.
Qed.

Lemma dumps_optional (o : option str) :
  json_dumps (optional o) = match o with Some s => QUOTE :: esc s ++ [QUOTE] | None => lit "null" end.
Proof. destruct o; reflexivity. Qed.

(** A string or a null, as the encoder writes it, scans as itself. *)
Lemma scan_optional (n : nat) (o : option str) (k : str) :
  scan_once (S n) (json_dumps (optional o) ++ k) = Scanned (optional o) k.
Proof.
  destruct o as [s|]; simpl.
  - rewrite <- app_assoc. simpl. rewrite scanstring_encode. reflexivity.
  - reflexivity.
Qed.

Lemma skip_ws_optional (o : option str) (k : str) :
  skip_ws (json_dumps (optional o) ++ k) = json_dumps (optional o) ++ k.
Proof. destruct o; reflexivity. Qed.

(** A key and its value, followed by a comma and more items. *)
Lemma object_items_more (n : nat) (key vt : str) (v : value) (ps : list (str * value)) (rest k : str) :
  (forall k', skip_ws (vt ++ k') = vt ++ k') ->
  (forall k', scan_once n (vt ++ k') = Scanned v k') ->
  object_items n rest = Scanned ps k ->
  object_items (S n) (esc key ++ QUOTE :: COLON :: SPACE :: vt ++ COMMA :: SPACE :: QUOTE :: rest)
  = Scanned ((key, v) :: ps) k.
Proof.
  intros Hws Hv Hps. simpl. unfold esc. rewrite scanstring_encode. simpl.
  rewrite Hws, Hv. simpl. rewrite Hps. reflexivity.
Qed.

(** The last key and its value, followed by the closing brace. *)
Lemma object_items_last (n : nat) (key vt : str) (v : value) (k : str) :
  (forall k', skip_ws (vt ++ k') = vt ++ k') ->
  (forall k', scan_once n (vt ++ k') = Scanned v k') ->
  object_items (S n) (esc key ++ QUOTE :: COLON :: SPACE :: vt ++ RBRACE :: k)
  = Scanned [(key, v)] k.
Proof.
  intros Hws Hv. simpl. unfold esc. rewrite scanstring_encode. simpl.
  rewrite Hws, Hv. reflexivity.
Qed.

(** The text of a suggestion record, character by character. *)
Lemma dumps_suggestion (t : str) (y r : option str) (k : str) :
  json_dumps (suggestion t y r) ++ k =
  LBRACE :: QUOTE :: esc (lit "title") ++ QUOTE :: COLON :: SPACE
    :: json_dumps (VStr t) ++ COMMA :: SPACE :: QUOTE
    :: esc (lit "year") ++ QUOTE :: COLON :: SPACE
    :: json_dumps (optional y) ++ COMMA :: SPACE :: QUOTE
    :: esc (lit "reason") ++ QUOTE :: COLON :: SPACE
    :: json_dumps (optional r) ++ RBRACE :: k.
Proof.
  unfold suggestion. cbn [json_dumps map Str.join fst snd].
  change (json_dumps (VStr t)) with (encode_basestring t).
  unfold encode_basestring, esc.
  repeat (rewrite <- ?app_assoc; simpl). reflexivity.
Qed.

(** A suggestion record, as the encoder writes it, scans as itself. *)
Lemma scan_suggestion (n : nat) (t : str) (y r : option str) (k : str) :
  scan_once (5 + n) (json_dumps (suggestion t y r) ++ k) = Scanned (suggestion t y r) k.
Proof.
  rewrite dumps_suggestion.
  change (5 + n)%nat with (S (S (3 + n))).
  cbn [scan_once]. cbn [N.eqb Pos.eqb skip_ws is_json_ws orb].
  rewrite (object_items_more _ _ _ (VStr t)
             [(lit "year", optional y); (lit "reason", optional r)] _ k).
  - reflexivity.
  - intros k'. reflexivity.
  - intros k'. apply (scan_optional _ (Some t)).
  - apply object_items_more.
    + apply skip_ws_optional.
    + apply scan_optional.
    + apply object_items_last.
      * apply skip_ws_optional.
      * apply scan_optional.
Qed.

(** One step of the array loop. *)
Lemma array_items_S (n : nat) (s : str) :
  array_items (S n) s =
  match scan_once n s with
  | Scanned v r =>
      match skip_ws r with
      | c :: r1 =>
          if c =? RBRACKET then Scanned [v] r1
          else if c =? COMMA then
            match array_items n (skip_ws r1) with
            | Scanned vs k => Scanned (v :: vs) k
            | Invalid => Invalid
            | Exhausted => Exhausted
            end
          else Invalid
      | [] => Invalid
      end
  | Invalid => Invalid
  | Exhausted => Exhausted
  end.
Proof. reflexivity. Qed.

Lemma skip_ws_suggestions (v : value) (vs : list value) (k : str) :
  is_suggestion v ->
  skip_ws (Str.join (lit ", ") (map json_dumps (v :: vs)) ++ k)
  = Str.join (lit ", ") (map json_dumps (v :: vs)) ++ k.
Proof.
  intros (t & y & r & ->).
  destruct vs; cbn [map Str.join]; rewrite <- ?app_assoc; rewrite dumps_suggestion;
    reflexivity.
Qed.

Lemma scan_suggestion_ge (m : nat) (t : str) (y r : option str) (k : str) :
  (5 <= m)%nat ->
  scan_once m (json_dumps (suggestion t y r) ++ k) = Scanned (suggestion t y r) k.
Proof.
  intros H. replace m with (5 + (m - 5))%nat by lia. apply scan_suggestion.
Qed.

(** And so does a run of them between commas. *)
Lemma array_items_suggestions (m : nat) (vs : list value) (k : str) :
  vs <> [] -> Forall is_suggestion vs -> (5 <= m)%nat ->
  array_items (length vs + m) (Str.join (lit ", ") (map json_dumps vs) ++ RBRACKET :: k)
  = Scanned vs k.
Proof.
  intros Hne Hall Hm. induction Hall as [|v vs (t & y & r & ->) Hall IH]; [congruence|].
  change (length (suggestion t y r :: vs) + m)%nat with (S (length vs + m)).
  rewrite array_items_S.
  destruct vs as [|v' vs'].
  - cbn [map Str.join].
    rewrite scan_suggestion_ge by (simpl; lia). reflexivity.
  - change (Str.join (lit ", ") (map json_dumps (suggestion t y r :: v' :: vs')))
      with (json_dumps (suggestion t y r) ++ lit ", "
            ++ Str.join (lit ", ") (map json_dumps (v' :: vs'))).
    rewrite <- !app_assoc.
    rewrite scan_suggestion_ge by (simpl; lia).
    change (lit ", " ++ ?x) with (COMMA :: SPACE :: x).
    change (skip_ws (COMMA :: SPACE :: ?x)) with (COMMA :: SPACE :: x).
    cbv beta iota. change (COMMA =? RBRACKET) with false. change (COMMA =? COMMA) with true.
    cbv beta iota.
    change (skip_ws (SPACE :: ?x)) with (skip_ws x).
    inversion Hall as [|? ? Hv' _]; subst.
    rewrite skip_ws_suggestions by assumption.
    rewrite IH by congruence. reflexivity.
Qed.

Lemma length_join_ge (sep : str) (l : list str) :
  Forall (fun x => (1 <= length x)%nat) l -> (length l <= length (Str.join sep l))%nat.
Proof.
  induction 1 as [|x l Hx Hl IH]; [simpl; lia|].
  destruct l as [|y l']; [simpl; lia|].
  change (Str.join sep (x :: y :: l')) with (x ++ sep ++ Str.join sep (y :: l')).
  rewrite !length_app. simpl in *. lia.
Qed.

Lemma scan_once_array (n : nat) (s : str) (c : char) (tl : str) :
  skip_ws s = c :: tl -> c <> RBRACKET ->
  scan_once (S n) (LBRACKET :: s) =
  match array_items n (skip_ws s) with
  | Scanned vs k => Scanned (VList vs) k
  | Invalid => Invalid
  | Exhausted => Exhausted
  end.
Proof.
  intros Hs Hc. cbn [scan_once]. change (LBRACKET =? QUOTE) with false.
  change (LBRACKET =? LBRACE) with false. change (LBRACKET =? LBRACKET) with true.
  cbv beta iota. rewrite Hs. apply N.eqb_neq in Hc. rewrite Hc. reflexivity.
Qed.

(** Reading back what the encoder wrote for a list of suggestion records. *)
Lemma loads_dumps_suggestions (vs : list value) :
  Forall is_suggestion vs -> json_loads (json_dumps (VList vs)) = Ok (VList vs).
Proof.
  intros Hall. destruct vs as [|v vs']; [reflexivity|].
  unfold json_loads. cbn [json_dumps app Str.startswith N.eqb Pos.eqb andb].
  unfold decode.
  set (body := Str.join (lit ", ") (map json_dumps (v :: vs'))).
  assert (Hlen : (length (v :: vs') <= length body)%nat).
  { unfold body. etransitivity; [|apply length_join_ge].
    - rewrite length_map. reflexivity.
    - apply List.Forall_map. eapply List.Forall_impl; [|exact Hall].
      intros x (t & y & r & ->). pose proof (dumps_suggestion t y r []) as E.
      rewrite app_nil_r in E. rewrite E. simpl. lia. }
  assert (Hfuel : scan_budget (LBRACKET :: body ++ [RBRACKET])
                  = S (length (v :: vs') + (2 * length body + 5 - length (v :: vs')))).
  { unfold scan_budget. cbn [length]. rewrite length_app. cbn [length].
    cbn [length] in Hlen. lia. }
  rewrite Hfuel. clear Hfuel.
  change (skip_ws (LBRACKET :: ?x)) with (LBRACKET :: x).
  inversion Hall as [|? ? Hv Hvs]; subst.
  pose proof (skip_ws_suggestions v vs' [RBRACKET] Hv) as Hws. fold body in Hws.
  assert (Hhd : exists tl, body ++ [RBRACKET] = LBRACE :: tl).
  { destruct Hv as (t & y & r & ->).
    unfold body. destruct vs'; cbn [map Str.join]; rewrite <- ?app_assoc;
      rewrite dumps_suggestion; eauto. }
  destruct Hhd as [tl Htl].
  rewrite (scan_once_array _ _ LBRACE tl); [| rewrite Hws; exact Htl | discriminate].
  rewrite Hws. unfold body at 2.
  rewrite array_items_suggestions; [reflexivity|congruence|assumption|].
  cbn [length] in *. lia.
Qed.

End Codec.

(** ** The decoder and its step budget *)

Section Budget.

Context {R : Runtime}.

Lemma skip_ws_length (s : str) : (length (skip_ws s) <= length s)%nat.
Proof.
  induction s as [|c s IH]; simpl; [lia|].
  destruct (is_json_ws c); simpl; lia.
Qed.

Lemma scan_cons_some (c : char) (x : option (str * str)) (t k : str) :
  scan_cons c x = Some (t, k) -> exists t', x = Some (t', k).
Proof. destruct x as [[t' k']|]; simpl; [|discriminate]. intros [= <- <-]. eauto. Qed.

Lemma scanstring_shorter (n : nat) (s t k : str) :
  (length s <= n)%nat -> scanstring s = Some (t, k) -> (length k < length s)%nat.
Proof.
  revert s t k. induction n as [|n IH]; intros s t k Hn.
  - destruct s; [discriminate | simpl in Hn; lia].
  - destruct s as [|c r]; [discriminate|]. simpl.
    repeat case_match; try discriminate;
      try (intros [= <- <-]; simpl; lia);
      intros Hs; apply scan_cons_some in Hs; destruct Hs as [t' Hs];
      apply IH in Hs; simpl in *; subst; simpl in *; lia.
Qed.

Lemma startswith_length (p s : str) :
  Str.startswith p s = true -> (length p <= length s)%nat.
Proof.
  revert s. induction p as [|a p IH]; intros [|b s]; simpl; try discriminate; try lia.
  intros [_ H]%andb_true_iff. apply IH in H. lia.
Qed.

Lemma span_digits_length (s d k : str) :
  span_digits s = (d, k) -> length s = (length d + length k)%nat.
Proof.
  revert d k. induction s as [|c s IH]; intros d k; simpl.
  - intros [= <- <-]. reflexivity.
  - destruct (is_digit c).
    + destruct (span_digits s) as [d' k'] eqn:E. intros [= <- <-].
      simpl. rewrite (IH d' k' eq_refl). reflexivity.
    + intros [= <- <-]. reflexivity.
Qed.

Lemma match_integer_shorter (s i r : str) :
  match_integer s = Some (i, r) -> (length r < length s)%nat.
Proof.
  unfold match_integer.
  destruct s as [|c s']; [discriminate|].
  destruct (c =? MINUS);
    repeat case_match; try discriminate; intros [= <- <-]; simpl;
    repeat match goal with
    | H : span_digits _ = _ |- _ => apply span_digits_length in H
    end; simplify_eq; simpl in *; lia.
Qed.

Lemma match_frac_length (s f r : str) :
  match_frac s = (f, r) -> (length r <= length s)%nat.
Proof.
  unfold match_frac. repeat case_match; intros [= <- <-]; simpl;
    repeat match goal with
    | H : span_digits _ = _ |- _ => apply span_digits_length in H
    end; simplify_eq; simpl in *; lia.
Qed.

Lemma match_exp_length (s e r : str) :
  match_exp s = (e, r) -> (length r <= length s)%nat.
Proof.
  unfold match_exp. repeat case_match; intros [= <- <-]; simpl;
    repeat match goal with
    | H : span_digits _ = _ |- _ => apply span_digits_length in H
    end; simplify_eq; simpl in *; lia.
Qed.

Lemma scan_number_shorter (s : str) (v : value) (r : str) :
  scan_number s = Some (v, r) -> (length r < length s)%nat.
Proof.
  unfold scan_number.
  destruct (match_integer s) as [[i r0]|] eqn:Ei; [|discriminate].
  destruct (match_frac r0) as [f r1] eqn:Ef.
  destruct (match_exp r1) as [e r2] eqn:Ee.
  apply match_integer_shorter in Ei. apply match_frac_length in Ef.
  apply match_exp_length in Ee.
  repeat case_match; intros [= <- <-]; lia.
Qed.

Lemma scan_atom_shorter (s : str) (v : value) (r : str) :
  scan_atom s = Scanned v r -> (length r < length s)%nat.
Proof.
  unfold scan_atom.
  repeat match goal with
  | |- context [Str.startswith ?p s] =>
      let E := fresh "E" in
      destruct (Str.startswith p s) eqn:E;
      [apply startswith_length in E; intros [= <- <-]; rewrite length_drop;
       simpl in E; lia|]
  | |- context [scan_number s] =>
      let E := fresh "E" in
      destruct (scan_number s) as [[v' r']|] eqn:E;
      [apply scan_number_shorter in E; intros [= <- <-]; assumption|]
  end.
  discriminate.
Qed.

(** One step of each of the three scanners. *)
Lemma scan_once_S (n : nat) (s : str) :
  scan_once (S n) s =
  match s with
  | [] => Invalid
  | c :: r =>
      if c =? QUOTE then
        match scanstring r with
        | Some (t, k) => Scanned (VStr t) k
        | None => Invalid
        end
      else if c =? LBRACE then
        match skip_ws r with
        | c1 :: r1 =>
            if c1 =? RBRACE then Scanned (VDict []) r1
            else if c1 =? QUOTE then
              match object_items n r1 with
              | Scanned pairs k => Scanned (VDict (dict_of_pairs pairs)) k
              | Invalid => Invalid
              | Exhausted => Exhausted
              end
            else Invalid
        | [] => Invalid
        end
      else if c =? LBRACKET then
        match skip_ws r with
        | c1 :: r1 =>
            if c1 =? RBRACKET then Scanned (VList []) r1
            else
              match array_items n (c1 :: r1) with
              | Scanned vs k => Scanned (VList vs) k
              | Invalid => Invalid
              | Exhausted => Exhausted
              end
        | [] => Invalid
        end
      else scan_atom s
  end.
Proof. reflexivity. Qed.

Lemma object_items_S (n : nat) (s : str) :
  object_items (S n) s =
  match scanstring s with
  | None => Invalid
  | Some (key, r) =>
      match skip_ws r with
      | c :: r1 =>
          if c =? COLON then
            match scan_once n (skip_ws r1) with
            | Scanned v r2 =>
                match skip_ws r2 with
                | c2 :: r3 =>
                    if c2 =? RBRACE then Scanned [(key, v)] r3
                    else if c2 =? COMMA then
                      match skip_ws r3 with
                      | c3 :: r4 =>
                          if c3 =? QUOTE then
                            match object_items n r4 with
                            | Scanned ps k => Scanned ((key, v) :: ps) k
                            | Invalid => Invalid
                            | Exhausted => Exhausted
                            end
                          else Invalid
                      | [] => Invalid
                      end
                    else Invalid
                | [] => Invalid
                end
            | Invalid => Invalid
            | Exhausted => Exhausted
            end
          else Invalid
      | [] => Invalid
      end
  end.
Proof. reflexivity. Qed.

(** Turns the facts at hand about white space and strings into bounds on
    lengths. *)
Ltac lengths :=
  repeat match goal with
         | H : context [skip_ws ?r] |- _ =>
             lazymatch goal with
             | _ : (length (skip_ws r) <= length r)%nat |- _ => fail
             | _ => pose proof (skip_ws_length r)
             end
         | |- context [skip_ws ?r] =>
             lazymatch goal with
             | _ : (length (skip_ws r) <= length r)%nat |- _ => fail
             | _ => pose proof (skip_ws_length r)
             end
         end;
  repeat match goal with
         | H : skip_ws ?r = _ |- _ => rewrite H in *; clear H
         | H : scanstring ?r = Some _ |- _ =>
             apply (scanstring_shorter (length r)) in H; [|lia]
         | H : scan_atom _ = Scanned _ _ |- _ => apply scan_atom_shorter in H
         end;
  simpl length in *.

(** A scan that succeeds leaves less text than it was given. *)
Lemma scan_shorter (n : nat) :
  (forall s v k, scan_once n s = Scanned v k -> (length k < length s)%nat)
  /\ (forall s vs k, array_items n s = Scanned vs k -> (length k < length s)%nat)
  /\ (forall s ps k, object_items n s = Scanned ps k -> (length k < length s)%nat).
Proof.
  induction n as [|n (IHs & IHa & IHo)]; [repeat split; discriminate|].
  repeat split.
  - intros s v k. rewrite scan_once_S.
    repeat case_match; try discriminate; intros Hk;
      try (injection Hk as <- <-); subst;
      repeat match goal with
             | H : object_items n _ = Scanned _ _ |- _ => apply IHo in H
             | H : array_items n _ = Scanned _ _ |- _ => apply IHa in H
             end; lengths; lia.
  - intros s vs k. rewrite array_items_S.
    repeat case_match; try discriminate; intros [= <- <-]; subst;
      repeat match goal with
             | H : scan_once n _ = Scanned _ _ |- _ => apply IHs in H
             | H : array_items n _ = Scanned _ _ |- _ => apply IHa in H
             end; lengths; lia.
  - intros s ps k. rewrite object_items_S.
    repeat case_match; try discriminate; intros [= <- <-]; subst;
      repeat match goal with
             | H : scan_once n _ = Scanned _ _ |- _ => apply IHs in H
             | H : object_items n _ = Scanned _ _ |- _ => apply IHo in H
             end; lengths; lia.
Qed.

(** With two steps for each character and one to spare, a scan does not
    run out of steps. *)
Lemma scan_budget_enough (n : nat) :
  (forall s, (2 * length s + 1 <= n)%nat -> scan_once n s <> Exhausted)
  /\ (forall s, (2 * length s + 2 <= n)%nat -> array_items n s <> Exhausted)
  /\ (forall s, (2 * length s + 2 <= n)%nat -> object_items n s <> Exhausted).
Proof.
  induction n as [|n (IHs & IHa & IHo)]; [repeat split; intros; lia|].
  destruct (scan_shorter n) as (Ss & Sa & So).
  repeat split.
  - intros s Hn. rewrite scan_once_S.
    repeat case_match; try discriminate; subst.
    + match goal with H : object_items n ?x = Exhausted |- _ =>
        exfalso; apply (IHo x); [|exact H] end.
      lengths. lia.
    + match goal with H : array_items n ?x = Exhausted |- _ =>
        exfalso; apply (IHa x); [|exact H] end.
      lengths. lia.
    + unfold scan_atom. repeat case_match; discriminate.
  - intros s Hn. rewrite array_items_S.
    repeat case_match; try discriminate; subst.
    + match goal with H : array_items n ?x = Exhausted |- _ =>
        exfalso; apply (IHa x); [|exact H] end.
      repeat match goal with
             | H : scan_once n _ = Scanned _ _ |- _ => apply Ss in H
             end.
      lengths. lia.
    + match goal with H : scan_once n ?x = Exhausted |- _ =>
        exfalso; apply (IHs x); [|exact H] end.
      lia.
  - intros s Hn. rewrite object_items_S.
    repeat case_match; try discriminate; subst.
    + match goal with H : object_items n ?x = Exhausted |- _ =>
        exfalso; apply (IHo x); [|exact H] end.
      repeat match goal with
             | H : scan_once n _ = Scanned _ _ |- _ => apply Ss in H
             end.
      lengths. lia.
    + match goal with H : scan_once n ?x = Exhausted |- _ =>
        exfalso; apply (IHs x); [|exact H] end.
      lengths. lia.
Qed.

(** The decoder never stops for want of steps: a text it turns down is a
    text it has read and found wrong. *)
Lemma decode_within_budget (s : str) :
  scan_once (scan_budget s) (skip_ws s) <> Exhausted.
Proof.
  apply scan_budget_enough. unfold scan_budget.
  pose proof (skip_ws_length s). lia.
Qed.

(** More steps do not change the outcome of a scan that had enough. *)
Lemma scan_more_fuel (n : nat) :
  (forall s m, (n <= m)%nat -> scan_once n s <> Exhausted ->
               scan_once m s = scan_once n s)
  /\ (forall s m, (n <= m)%nat -> array_items n s <> Exhausted ->
                  array_items m s = array_items n s)
  /\ (forall s m, (n <= m)%nat -> object_items n s <> Exhausted ->
                  object_items m s = object_items n s).
Proof.
  induction n as [|n (IHs & IHa & IHo)];
    [repeat split; intros s m _ H; exfalso; apply H; reflexivity|].
  repeat split; intros s [|m] Hm; try lia.
  - rewrite !scan_once_S. intros Hne.
    repeat case_match; try reflexivity; try congruence; subst;
      try match goal with
          | H : object_items n ?x = _, H' : object_items m ?x = _ |- _ =>
              rewrite (IHo x m) in H' by (try lia; rewrite H; discriminate);
              congruence
          | H : array_items n ?x = _, H' : array_items m ?x = _ |- _ =>
              rewrite (IHa x m) in H' by (try lia; rewrite H; discriminate);
              congruence
          end.
  - rewrite !array_items_S. intros Hne.
    destruct (scan_once n s) as [v r| |] eqn:E1; [| |congruence];
      rewrite (IHs s m) by (try lia; rewrite E1; discriminate); rewrite E1;
      [|reflexivity].
    repeat case_match; try reflexivity; try congruence; subst;
      try match goal with
          | H : array_items n ?x = _, H' : array_items m ?x = _ |- _ =>
              rewrite (IHa x m) in H' by (try lia; rewrite H; discriminate);
              congruence
          end.
  - rewrite !object_items_S. intros Hne.
    destruct (scanstring s) as [[key r]|]; [|reflexivity].
    destruct (skip_ws r) as [|c r1]; [reflexivity|].
    destruct (c =? COLON); [|reflexivity].
    destruct (scan_once n (skip_ws r1)) as [v r2| |] eqn:E1; [| |congruence];
      rewrite (IHs _ m) by (try lia; rewrite E1; discriminate); rewrite E1;
      [|reflexivity].
    repeat case_match; try reflexivity; try congruence; subst;
      try match goal with
          | H : object_items n ?x = _, H' : object_items m ?x = _ |- _ =>
              rewrite (IHo x m) in H' by (try lia; rewrite H; discriminate);
              congruence
          end.
Qed.

(** So the outcome of the decoder does not depend on its budget. *)
Lemma decode_any_budget (s : str) (m : nat) :
  (scan_budget s <= m)%nat ->
  scan_once m (skip_ws s) = scan_once (scan_budget s) (skip_ws s).
Proof.
  intros Hm. destruct (scan_more_fuel (scan_budget s)) as (H & _ & _).
  apply H; [assumption | apply decode_within_budget].
Qed.

End Budget.

(** ** The normalisation loop *)

Section Normalisation.

Context {R : Runtime}.

Lemma fold_append {A B : Type} (f : B -> list A) (l : list B) (init : list A) :
  fold_left (fun acc x => acc ++ f x) l init = init ++ flat_map f l.
Proof.
  revert init. induction l as [|x l IH]; intros init; simpl.
  - symmetry. apply app_nil_r.
  - rewrite IH. symmetry. apply app_assoc.
Qed.

Lemma normalize_flat_map (l : list value) :
  normalize l = flat_map normalize_item l.
Proof. unfold normalize. apply (fold_append normalize_item l []). Qed.

Lemma normalize_cons (item : value) (l : list value) :
  normalize (item :: l) = normalize_item item ++ normalize l.
Proof. rewrite !normalize_flat_map. reflexivity. Qed.

Lemma normalize_item_dropped (item : value) :
  kept item = false -> normalize_item item = [].
Proof.
  destruct item; simpl; try reflexivity; try discriminate.
  intros ->. reflexivity.
Qed.

Lemma normalize_item_kept (item : value) :
  kept item = true -> exists v, normalize_item item = [v] /\ is_suggestion v.
Proof.
  destruct item; simpl; try discriminate.
  - intros _. eexists. split; [reflexivity|]. unfold is_suggestion. eauto.
  - intros ->. eexists. split; [reflexivity|]. unfold is_suggestion. eauto.
Qed.

Lemma normalize_suggestions (l : list value) : Forall is_suggestion (normalize l).
Proof.
  induction l as [|item l IH]; [constructor|].
  rewrite normalize_cons. destruct (kept item) eqn:E.
  - destruct (normalize_item_kept item E) as (v & -> & Hv). constructor; assumption.
  - rewrite (normalize_item_dropped item E). assumption.
Qed.

Lemma length_normalize (l : list value) :
  length (normalize l) = length (List.filter kept l).
Proof.
  induction l as [|item l IH]; [reflexivity|].
  rewrite normalize_cons. simpl. destruct (kept item) eqn:E.
  - destruct (normalize_item_kept item E) as (v & -> & _). simpl. congruence.
  - rewrite (normalize_item_dropped item E). assumption.
Qed.

Lemma normalize_all_dropped (l : list value) :
  forallb (fun item => negb (kept item)) l = true -> normalize l = [].
Proof.
  induction l as [|item l IH]; [reflexivity|]. simpl.
  intros [Hd Hl]%andb_true_iff. rewrite normalize_cons.
  rewrite normalize_item_dropped by (destruct (kept item); [discriminate|reflexivity]).
  auto.
Qed.

Lemma str_or_none_coerced (d : list (str * value)) (k : str) :
  str_or_none d k = coerced (dict_get d k).
Proof. reflexivity. Qed.

(** The relation leaves no choice: what is kept of a list is determined. *)
Lemma normalizes_functional (f : str -> str) (items out1 out2 : list value) :
  normalizes f items out1 -> normalizes f items out2 -> out1 = out2.
Proof.
  intros H1. revert out2.
  induction H1 as [| d v items out Hv _ IH | s items out _ IH
                   | item items out Hk _ IH];
    intros out2 H2; inversion H2; subst;
    try reflexivity;
    try (f_equal; [congruence | apply IH; assumption]);
    try (apply IH; assumption);
    try (f_equal; apply IH; assumption);
    exfalso;
    repeat match goal with
           | H : kept _ = false |- _ => simpl in H; unfold dict_has in H
           | H : dict_get ?d ?k = Some _, H' : context [dict_get ?d ?k] |- _ =>
               rewrite H in H'
           end;
    discriminate.
Qed.

End Normalisation.

(** ** The handler, case by case *)

Section Handler.

Context {R : Runtime}.

Lemma recommend_blank (w : World) (payload : RecommendRequest.t) (db : store) :
  only_whitespace (RecommendRequest.user_input payload) = true ->
  recommend w payload db
  = (HTTPException 400 (lit "user_input must be a non-empty string"), db).
Proof.
  intros H. unfold recommend. cbv zeta. rewrite guard_blank.
  unfold only_whitespace in H. rewrite H. reflexivity.
Qed.

Lemma recommend_not_blank (w : World) (payload : RecommendRequest.t) (db : store) :
  only_whitespace (RecommendRequest.user_input payload) = false ->
  recommend w payload db =
  match ask_openai_for_movies w (RecommendRequest.user_input payload) with
  | Raise e => (HTTPException 500 (exn_str e), db)
  | Ok movie_list =>
      match db_add db (Str.strip (RecommendRequest.user_input payload))
              (json_dumps (VList (normalize movie_list))) (utcnow w) with
      | Ok db' => (Return (normalize movie_list), db')
      | Raise e => (Unhandled e, db)
      end
  end.
Proof.
  intros H. unfold recommend. cbv zeta. rewrite guard_blank.
  unfold only_whitespace in H. rewrite H. reflexivity.
Qed.

(** Past the guard and the helper, the call turns on whether the list can
    be stored. *)
Lemma recommend_stores (w : World) (payload : RecommendRequest.t) (db : store)
    (movie_list : list value) :
  only_whitespace (RecommendRequest.user_input payload) = false ->
  ask_openai_for_movies w (RecommendRequest.user_input payload) = Ok movie_list ->
  recommend w payload db =
  if utf8_encodable (json_dumps (VList (normalize movie_list)))
  then (Return (normalize movie_list),
        insert_row db (Str.strip (RecommendRequest.user_input payload))
          (json_dumps (VList (normalize movie_list))) (utcnow w))
  else (Unhandled (UnicodeEncodeError
                     (encode_error_text (json_dumps (VList (normalize movie_list))))),
        db).
Proof.
  intros Hb Hask. rewrite recommend_not_blank by assumption. rewrite Hask.
  unfold db_add. destruct (utf8_encodable _); reflexivity.
Qed.

(** A call that returns has passed the guard, got an array from the helper,
    and stored one row. *)
Lemma recommend_returns (w : World) (payload : RecommendRequest.t) (db db' : store)
    (body : list value) :
  recommend w payload db = (Return body, db') ->
  exists movie_list,
    only_whitespace (RecommendRequest.user_input payload) = false
    /\ ask_openai_for_movies w (RecommendRequest.user_input payload) = Ok movie_list
    /\ body = normalize movie_list
    /\ db' = insert_row db (Str.strip (RecommendRequest.user_input payload))
               (json_dumps (VList body)) (utcnow w).
Proof.
  destruct (only_whitespace (RecommendRequest.user_input payload)) eqn:Hb.
  - rewrite recommend_blank by assumption. discriminate.
  - destruct (ask_openai_for_movies w (RecommendRequest.user_input payload))
      as [l|e] eqn:Hask.
    + rewrite (recommend_stores w payload db l Hb Hask).
      destruct (utf8_encodable _); [|discriminate].
      intros [= <- <-]. eauto.
    + rewrite recommend_not_blank, Hask by assumption. discriminate.
Qed.

(** Past the guard, a helper that raises makes the call fail with 500. *)
Lemma recommend_ask_raises (w : World) (payload : RecommendRequest.t) (db : store)
    (e : exn) :
  only_whitespace (RecommendRequest.user_input payload) = false ->
  ask_openai_for_movies w (RecommendRequest.user_input payload) = Raise e ->
  recommend w payload db = (HTTPException 500 (exn_str e), db).
Proof.
  intros Hb Hask. rewrite recommend_not_blank by assumption. rewrite Hask.
  reflexivity.
Qed.

(** Past the guard, the only HTTP error is the 500 of a helper that
    raised. *)
Lemma recommend_http_exception (w : World) (payload : RecommendRequest.t)
    (db db' : store) (status : Z) (detail : str) :
  only_whitespace (RecommendRequest.user_input payload) = false ->
  recommend w payload db = (HTTPException status detail, db') ->
  status = 500%Z /\ db' = db
  /\ exists e, ask_openai_for_movies w (RecommendRequest.user_input payload) = Raise e
               /\ detail = exn_str e.
Proof.
  intros Hb.
  destruct (ask_openai_for_movies w (RecommendRequest.user_input payload))
    as [l|e] eqn:Hask.
  - rewrite (recommend_stores w payload db l Hb Hask).
    destruct (utf8_encodable _); discriminate.
  - rewrite (recommend_ask_raises w payload db e Hb Hask).
    intros [= <- <- <-]. eauto.
Qed.

(** A call that returns has stored a list that UTF-8 can carry. *)
Lemma recommend_returns_encodable (w : World) (payload : RecommendRequest.t)
    (db db' : store) (body : list value) :
  recommend w payload db = (Return body, db') ->
  utf8_encodable (json_dumps (VList body)) = true.
Proof.
  destruct (only_whitespace (RecommendRequest.user_input payload)) eqn:Hb.
  - rewrite recommend_blank by assumption. discriminate.
  - destruct (ask_openai_for_movies w (RecommendRequest.user_input payload))
      as [l|e] eqn:Hask.
    + rewrite (recommend_stores w payload db l Hb Hask).
      destruct (utf8_encodable _) eqn:E; [|discriminate].
      intros [= <- _]. exact E.
    + rewrite recommend_not_blank, Hask by assumption. discriminate.
Qed.

(** A call that does not return leaves the table as it was. *)
Lemma recommend_fails_keeps_table (w : World) (payload : RecommendRequest.t)
    (db : store) :
  (forall body, (recommend w payload db).1 <> Return body) ->
  (recommend w payload db).2 = db.
Proof.
  destruct (only_whitespace (RecommendRequest.user_input payload)) eqn:Hb.
  - rewrite recommend_blank by assumption. reflexivity.
  - destruct (ask_openai_for_movies w (RecommendRequest.user_input payload))
      as [l|e] eqn:Hask.
    + rewrite (recommend_stores w payload db l Hb Hask).
      destruct (utf8_encodable _); [|reflexivity].
      intros H. exfalso. eapply H. reflexivity.
    + rewrite recommend_not_blank, Hask by assumption. reflexivity.
Qed.

End Handler.

(** ** Searching and slicing *)

Section Search.

Local Open Scope Z_scope.

Lemma find_from_notin (c : char) (s : str) (i : Z) :
  ~ In c s -> Str.find_from c s i = -1.
Proof.
  revert i. induction s as [|x s IH]; intros i Hn; simpl; [reflexivity|].
  destruct (N.eqb_spec x c) as [->|Hne].
  - exfalso. apply Hn. left. reflexivity.
  - apply IH. intros Hin. apply Hn. right. assumption.
Qed.

Lemma find_from_first (c : char) (pre post : str) (i : Z) :
  ~ In c pre -> Str.find_from c (pre ++ c :: post) i = i + Z.of_nat (length pre).
Proof.
  revert i. induction pre as [|x pre IH]; intros i Hn; simpl.
  - rewrite N.eqb_refl. lia.
  - destruct (N.eqb_spec x c) as [->|Hne].
    + exfalso. apply Hn. left. reflexivity.
    + rewrite IH by (intros Hin; apply Hn; right; assumption). lia.
Qed.

(** A text splits at the first occurrence of a character it contains. *)
Lemma split_first (c : char) (s : str) :
  In c s -> exists pre post, s = pre ++ c :: post /\ ~ In c pre.
Proof.
  induction s as [|x s IH]; [intros []|].
  destruct (N.eq_dec x c) as [->|Hne].
  - intros _. exists [], s. split; [reflexivity|]. intros [].
  - intros [Hx|Hin]; [contradiction|].
    destruct (IH Hin) as (pre & post & -> & Hpre).
    exists (x :: pre), post. split; [reflexivity|].
    intros [Hx|Hin']; [contradiction|]. apply Hpre. assumption.
Qed.

(** And at the last. *)
Lemma split_last (c : char) (s : str) :
  In c s -> exists pre post, s = pre ++ c :: post /\ ~ In c post.
Proof.
  intros Hin. apply in_rev in Hin.
  destruct (split_first c (rev s) Hin) as (a & b & E & Ha).
  exists (rev b), (rev a). split.
  - rewrite <- (rev_involutive s), E, rev_app_distr. simpl.
    rewrite <- app_assoc. reflexivity.
  - intros H. apply Ha. apply in_rev. assumption.
Qed.

Lemma rfind_from_notin (c : char) (s : str) (i last : Z) :
  ~ In c s -> Str.rfind_from c s i last = last.
Proof.
  revert i last. induction s as [|x s IH]; intros i last Hn; simpl; [reflexivity|].
  destruct (N.eqb_spec x c) as [->|Hne].
  - exfalso. apply Hn. left. reflexivity.
  - apply IH. intros Hin. apply Hn. right. assumption.
Qed.

Lemma rfind_from_last (c : char) (pre post : str) (i last : Z) :
  ~ In c post ->
  Str.rfind_from c (pre ++ c :: post) i last = i + Z.of_nat (length pre).
Proof.
  revert i last. induction pre as [|x pre IH]; intros i last Hn; simpl.
  - rewrite N.eqb_refl, rfind_from_notin by assumption. lia.
  - rewrite IH by assumption. lia.
Qed.

Lemma find_found (c : char) (s : str) :
  Str.find c s <> -1 ->
  exists pre post, s = pre ++ c :: post /\ ~ In c pre
                   /\ Str.find c s = Z.of_nat (length pre).
Proof.
  intros H. destruct (in_dec N.eq_dec c s) as [Hin|Hn].
  - destruct (split_first c s Hin) as (pre & post & -> & Hpre).
    exists pre, post. repeat split; [assumption|].
    unfold Str.find. rewrite find_from_first by assumption. lia.
  - exfalso. apply H. apply find_from_notin. assumption.
Qed.

Lemma rfind_found (c : char) (s : str) :
  Str.rfind c s <> -1 ->
  exists pre post, s = pre ++ c :: post /\ ~ In c post
                   /\ Str.rfind c s = Z.of_nat (length pre).
Proof.
  intros H. destruct (in_dec N.eq_dec c s) as [Hin|Hn].
  - destruct (split_last c s Hin) as (pre & post & -> & Hpost).
    exists pre, post. repeat split; [assumption|].
    unfold Str.rfind. rewrite rfind_from_last by assumption. lia.
  - exfalso. apply H. apply rfind_from_notin. assumption.
Qed.

Lemma slice_middle (pre mid post : str) :
  Str.slice (pre ++ mid ++ post) (Z.of_nat (length pre))
    (Z.of_nat (length pre) + Z.of_nat (length mid)) = mid.
Proof.
  unfold Str.slice.
  replace (Z.to_nat (Z.of_nat (length pre) + Z.of_nat (length mid) - Z.of_nat (length pre)))
    with (length mid) by lia.
  rewrite Nat2Z.id, drop_app_length, take_app_length. reflexivity.
Qed.

(** Where the two searches of the helper land on a text with a bracketed
    part, and what the slice between them is. *)
Lemma bracketed_positions (pre mid post : str) :
  ~ In LBRACKET pre -> ~ In RBRACKET post ->
  let text := pre ++ LBRACKET :: mid ++ RBRACKET :: post in
  Str.find LBRACKET text = Z.of_nat (length pre)
  /\ Str.rfind RBRACKET text = Z.of_nat (length pre) + 1 + Z.of_nat (length mid)
  /\ Str.slice text (Str.find LBRACKET text) (Str.rfind RBRACKET text + 1)
     = LBRACKET :: mid ++ [RBRACKET].
Proof.
  intros Hpre Hpost text.
  assert (Hf : Str.find LBRACKET text = Z.of_nat (length pre)).
  { unfold text, Str.find. rewrite find_from_first by assumption. lia. }
  assert (Hr : Str.rfind RBRACKET text = Z.of_nat (length pre) + 1 + Z.of_nat (length mid)).
  { unfold text, Str.rfind.
    change (pre ++ LBRACKET :: mid ++ RBRACKET :: post)
      with (pre ++ (LBRACKET :: mid) ++ RBRACKET :: post).
    rewrite app_assoc, rfind_from_last by assumption.
    rewrite length_app. simpl length. lia. }
  repeat split; [assumption | assumption |].
  rewrite Hf, Hr. unfold text.
  change (pre ++ LBRACKET :: mid ++ RBRACKET :: post)
    with (pre ++ (LBRACKET :: mid ++ [RBRACKET]) ++ post)
    || replace (pre ++ LBRACKET :: mid ++ RBRACKET :: post)
         with (pre ++ (LBRACKET :: mid ++ [RBRACKET]) ++ post)
         by (simpl; rewrite <- app_assoc; reflexivity).
  replace (Z.of_nat (length pre) + 1 + Z.of_nat (length mid) + 1)
    with (Z.of_nat (length pre) + Z.of_nat (length (LBRACKET :: mid ++ [RBRACKET])))
    by (simpl length; rewrite length_app; simpl length; lia).
  apply slice_middle.
Qed.

(** The guard of line 117 holds exactly on the texts with a bracketed
    part, and the slice of line 118 is that part. *)
Lemma bracketed_guard (text : str) :
  let start := Str.find LBRACKET text in
  let end_ := Str.rfind RBRACKET text in
  (negb (start =? -1) && negb (end_ =? -1) && (start <? end_) = true
   <-> exists sub, bracketed text sub)
  /\ forall sub, bracketed text sub -> sub = Str.slice text start (end_ + 1).
Proof.
  intros start end_. split; [split|].
  - rewrite !andb_true_iff, !negb_true_iff, !Z.eqb_neq, Z.ltb_lt.
    intros [[Hs He] Hlt].
    destruct (find_found _ _ Hs) as (pre & x & E1 & Hpre & Hfind).
    destruct (rfind_found _ _ He) as (y & post & E2 & Hpost & Hrfind).
    fold start in Hfind. fold end_ in Hrfind.
    assert (E : pre ++ LBRACKET :: x = y ++ RBRACKET :: post) by congruence.
    apply app_eq_app in E. destruct E as (l & [[Ea Eb] | [Ea Eb]]).
    + exfalso. subst pre. rewrite length_app in Hfind. lia.
    + destruct l as [|a mid].
      * exfalso. rewrite app_nil_r in Ea. subst y. lia.
      * simpl in Eb. injection Eb as <- ->.
        exists (LBRACKET :: mid ++ [RBRACKET]), pre, mid, post.
        repeat split; assumption.
  - intros (sub & pre & mid & post & E & Hpre & Hpost & _).
    destruct (bracketed_positions pre mid post Hpre Hpost) as (Hf & Hr & _).
    rewrite <- E in Hf, Hr. fold start in Hf. fold end_ in Hr.
    rewrite !andb_true_iff, !negb_true_iff, !Z.eqb_neq, Z.ltb_lt. lia.
  - intros sub (pre & mid & post & E & Hpre & Hpost & ->).
    destruct (bracketed_positions pre mid post Hpre Hpost) as (_ & _ & Hsl).
    rewrite <- E in Hsl. symmetry. exact Hsl.
Qed.

End Search.

(** ** Extraction of the array *)

Section Extraction.

Context {R : Runtime}.

Lemma loads_list_ok (msg s : str) (l : list value) :
  loads_list msg s = Ok l <-> is_array s l.
Proof.
  unfold loads_list, is_array.
  destruct (json_loads s) as [[| | | | | l' |]|e]; split; intros H;
    try discriminate; congruence.
Qed.

Lemma loads_list_raise (msg s : str) (e : exn) :
  loads_list msg s = Raise e -> forall l, ~ is_array s l.
Proof.
  intros H l Hl. apply (loads_list_ok msg) in Hl. congruence.
Qed.

Lemma not_array_raises (msg s : str) :
  (forall l, ~ is_array s l) -> exists e, loads_list msg s = Raise e.
Proof.
  intros H. destruct (loads_list msg s) as [l|e] eqn:E; [|eauto].
  exfalso. apply (H l). apply (loads_list_ok msg). assumption.
Qed.

(** The helper's parsing step returns an array exactly when one can be
    recovered from the text. *)
Lemma extract_array_spec (text : str) (l : list value) :
  extract_array text = Ok l <-> recoverable text l.
Proof.
  unfold extract_array, recoverable. cbv zeta.
  destruct (loads_list (lit "Parsed JSON is not a list") text) as [parsed|e] eqn:E1.
  - apply loads_list_ok in E1. split.
    + intros [= <-]. left. assumption.
    + intros [Hl | [Hno _]].
      * unfold is_array in *. congruence.
      * exfalso. apply (Hno parsed). assumption.
  - pose proof (loads_list_raise _ _ _ E1) as Hno.
    destruct (negb (Str.find LBRACKET text =? -1)%Z
              && negb (Str.rfind RBRACKET text =? -1)%Z
              && (Str.find LBRACKET text <? Str.rfind RBRACKET text)%Z) eqn:G.
    + destruct (bracketed_guard text) as [Hguard Hslice]. cbv zeta in *.
      apply Hguard in G. destruct G as [sub Hsub].
      rewrite <- (Hslice sub Hsub).
      destruct (loads_list (lit "Parsed JSON substring is not a list") sub)
        as [parsed|e'] eqn:E2.
      * apply loads_list_ok in E2. split.
        -- intros [= <-]. right. split; [assumption|]. exists sub. split; assumption.
        -- intros [Hl | (_ & sub' & Hsub' & Hl)].
           ++ exfalso. apply (Hno l). assumption.
           ++ rewrite (Hslice sub' Hsub') in Hl. rewrite (Hslice sub Hsub) in E2.
              unfold is_array in *. congruence.
      * split; [discriminate|].
        intros [Hl | (_ & sub' & Hsub' & Hl)].
        -- exfalso. apply (Hno l). assumption.
        -- exfalso. rewrite (Hslice sub' Hsub') in Hl. rewrite <- (Hslice sub Hsub) in Hl.
           apply (loads_list_raise _ _ _ E2 l). assumption.
    + split; [discriminate|].
      intros [Hl | (_ & sub' & Hsub' & _)].
      * exfalso. apply (Hno l). assumption.
      * exfalso. assert (Hex : exists sub, bracketed text sub) by eauto.
        destruct (bracketed_guard text) as [Hguard _]. cbv zeta in *.
        apply Hguard in Hex. congruence.
Qed.

(** The helper raises exactly on the upstream and parse failures. *)
Lemma ask_raises_spec (w : World) (user_input : str) :
  (exists e, ask_openai_for_movies w user_input = Raise e)
  <-> upstream_failure w user_input.
Proof.
  unfold ask_openai_for_movies, upstream_failure.
  destruct (responses_create w (make_request user_input)) as [msg|resp].
  - split; [trivial | eauto].
  - cbv zeta. destruct (response_text resp) as [|c text] eqn:E; simpl Str.falsy; cbv iota.
    + split; [auto | eauto].
    + split.
      * intros [e He]. right. intros l Hl. apply extract_array_spec in Hl. congruence.
      * intros [Habs | Hno]; [discriminate|].
        destruct (extract_array (c :: text)) as [l|e] eqn:Hx; [|eauto].
        exfalso. apply (Hno l). apply extract_array_spec. assumption.
Qed.

Lemma bracketed_unique (text a b : str) :
  bracketed text a -> bracketed text b -> a = b.
Proof.
  intros Ha Hb. destruct (bracketed_guard text) as [_ Hslice]. cbv zeta in Hslice.
  rewrite (Hslice a Ha), (Hslice b Hb). reflexivity.
Qed.

(** Takes an [upstream_error] apart and identifies the responses of the
    cases with the one at hand. *)
Ltac invert_upstream_error Hd :=
  inversion Hd; subst; try congruence;
  repeat match goal with
         | H1 : ?c = Replied ?r1, H2 : ?c = Replied ?r2 |- _ =>
             assert (r2 = r1) by congruence; subst r2; clear H2
         end;
  try congruence.

(** What the helper raises, and with which message. *)
Lemma ask_raises_detail (w : World) (user_input : str) (e : exn) :
  ask_openai_for_movies w user_input = Raise e
  <-> exists detail, e = RuntimeError detail /\ upstream_error w user_input detail.
Proof.
  unfold ask_openai_for_movies.
  destruct (responses_create w (make_request user_input)) as [msg|resp] eqn:Hcall.
  - split.
    + intros [= <-]. eexists. split; [reflexivity|]. apply call_failed. assumption.
    + intros (d & -> & Hd). invert_upstream_error Hd.
  - cbv zeta. destruct (Str.falsy (response_text resp)) eqn:F.
    + assert (E : response_text resp = [])
        by (destruct (response_text resp); [reflexivity | discriminate]).
      split.
      * intros [= <-]. eexists. split; [reflexivity|]. eapply empty_text; eassumption.
      * intros (d & -> & Hd). invert_upstream_error Hd.
    + assert (Hne : response_text resp <> [])
        by (intros E; rewrite E in F; discriminate).
      unfold extract_array. cbv zeta.
      destruct (loads_list (lit "Parsed JSON is not a list") (response_text resp))
        as [parsed|e1] eqn:E1.
      * apply loads_list_ok in E1. split; [discriminate|].
        intros (d & -> & Hd). exfalso.
        invert_upstream_error Hd;
          match goal with H : forall l, ~ is_array _ l |- _ => eapply H; eassumption end.
      * pose proof (loads_list_raise _ _ _ E1) as Hno.
        destruct (bracketed_guard (response_text resp)) as [Hguard Hslice].
        cbv zeta in Hguard, Hslice.
        destruct (negb (Str.find LBRACKET (response_text resp) =? -1)%Z
                  && negb (Str.rfind RBRACKET (response_text resp) =? -1)%Z
                  && (Str.find LBRACKET (response_text resp)
                      <? Str.rfind RBRACKET (response_text resp))%Z) eqn:G.
        -- assert (Hex : exists sub, bracketed (response_text resp) sub)
             by (apply Hguard; reflexivity).
           destruct Hex as [sub Hsub].
           rewrite <- (Hslice sub Hsub).
           destruct (loads_list (lit "Parsed JSON substring is not a list") sub)
             as [parsed|e2] eqn:E2.
           ++ split; [discriminate|].
              intros (d & -> & Hd). exfalso. invert_upstream_error Hd.
              ** match goal with H : forall s, ~ bracketed _ s |- _ =>
                   eapply H; eassumption end.
              ** match goal with H : bracketed _ ?s |- _ =>
                   assert (s = sub) by (eapply bracketed_unique; eassumption); subst s
                 end. congruence.
           ++ split.
              ** intros [= <-]. eexists. split; [reflexivity|].
                 eapply bad_brackets; eassumption.
              ** intros (d & -> & Hd). invert_upstream_error Hd.
                 --- exfalso.
                     match goal with H : forall s, ~ bracketed _ s |- _ =>
                       eapply H; eassumption end.
                 --- match goal with H : bracketed _ ?s, H' : bracketed _ sub |- _ =>
                       assert (s = sub) by (eapply bracketed_unique; eassumption); subst s
                     end. congruence.
        -- assert (Hnb : forall sub, ~ bracketed (response_text resp) sub).
           { intros sub Hsub.
             assert (Hex : exists sub, bracketed (response_text resp) sub) by eauto.
             apply Hguard in Hex. discriminate. }
           split.
           ++ intros [= <-]. eexists. split; [reflexivity|].
              eapply no_brackets; eassumption.
           ++ intros (d & -> & Hd). invert_upstream_error Hd.
              exfalso. eapply Hnb; eassumption.
Qed.

(** Every exception of the helper is a [RuntimeError]. *)
Lemma ask_raises_runtime_error (w : World) (user_input : str) (e : exn) :
  ask_openai_for_movies w user_input = Raise e -> e = RuntimeError (exn_str e).
Proof.
  intros H. apply ask_raises_detail in H. destruct H as (d & -> & _). reflexivity.
Qed.

End Extraction.

(** ** The order of time stamps *)

Lemma lex_leb_total (a b : list N) : lex_leb a b = true \/ lex_leb b a = true.
Proof.
  revert b. induction a as [|x a IH]; intros [|y b]; simpl; auto.
  destruct (N.compare_spec x y) as [->|Hlt|Hgt].
  - rewrite N.eqb_refl, N.ltb_irrefl. simpl. apply IH.
  - left. apply N.ltb_lt in Hlt. rewrite Hlt. reflexivity.
  - right. apply N.ltb_lt in Hgt. rewrite Hgt. reflexivity.
Qed.

Lemma lex_leb_trans (a b c : list N) :
  length a = length b -> length b = length c ->
  lex_leb a b = true -> lex_leb b c = true -> lex_leb a c = true.
Proof.
  revert b c. induction a as [|x a IH]; intros [|y b] [|z c]; simpl;
    try discriminate; auto.
  intros [= Hab] [= Hbc].
  rewrite !orb_true_iff, !andb_true_iff, !N.ltb_lt, !N.eqb_eq.
  intros [Hxy | [-> H1]] [Hyz | [-> H2]].
  - left. lia.
  - left. assumption.
  - left. assumption.
  - right. split; [reflexivity|]. eapply IH; eassumption.
Qed.

#[global] Instance newer_first_total : Total newer_first.
Proof. intros a b. unfold newer_first, dt_leb. apply lex_leb_total. Qed.

#[global] Instance newer_first_trans : Transitive newer_first.
Proof.
  intros a b c Hab Hbc. unfold newer_first, dt_leb in *.
  eapply lex_leb_trans; [| |exact Hbc|exact Hab]; reflexivity.
Qed.

Lemma StronglySorted_take {A : Type} (Rel : relation A) (n : nat) (l : list A) :
  StronglySorted Rel l -> StronglySorted Rel (take n l).
Proof.
  intros H. revert n. induction H as [|x l Hl IH Hx]; intros [|n]; simpl;
    try constructor.
  - apply IH.
  - apply Forall_take. assumption.
Qed.

(** ** The table under the two handlers *)

Section Table.

Context {R : Runtime}.

Lemma recommend_raises_keeps_table (w : World) (payload : RecommendRequest.t)
    (db db' : store) (status : Z) (detail : str) :
  recommend w payload db = (HTTPException status detail, db') -> db' = db.
Proof.
  intros E. pose proof (recommend_fails_keeps_table w payload db) as H.
  rewrite E in H. simpl in H. apply H. discriminate.
Qed.

(** A request leaves the rows that are there and adds at most one, which
    is well formed. *)
Lemma handle_appends (db : store) (rq : request) :
  exists new,
    handle db rq = db ++ new /\ (length new <= 1)%nat /\ Forall well_formed_row new.
Proof.
  destruct rq as [w payload | limit]; simpl.
  - destruct (recommend w payload db) as [[status detail | body | e] db'] eqn:E; simpl.
    + apply recommend_raises_keeps_table in E. subst db'.
      exists []. rewrite app_nil_r. repeat split; [simpl; lia | constructor].
    + destruct (recommend_returns _ _ _ _ _ E) as (l & _ & _ & -> & ->).
      eexists. split; [reflexivity|]. split; [simpl; lia|].
      constructor; [|constructor].
      exists (normalize l). split; [|apply normalize_suggestions].
      apply loads_dumps_suggestions, normalize_suggestions.
    + pose proof (recommend_fails_keeps_table w payload db) as H.
      rewrite E in H. simpl in H. rewrite H by discriminate.
      exists []. rewrite app_nil_r. repeat split; [simpl; lia | constructor].
  - exists []. rewrite app_nil_r. repeat split; [simpl; lia | constructor].
Qed.

Lemma run_snoc (rqs : list request) (rq : request) :
  run (rqs ++ [rq]) = handle (run rqs) rq.
Proof. unfold run. rewrite fold_left_app. reflexivity. Qed.

Lemma run_well_formed (rqs : list request) : Forall well_formed_row (run rqs).
Proof.
  induction rqs as [|rq rqs IH] using rev_ind; [constructor|].
  rewrite run_snoc.
  destruct (handle_appends (run rqs) rq) as (new & -> & _ & Hnew).
  apply Forall_app. split; assumption.
Qed.

Lemma history_items_shows (rows : store) :
  Forall well_formed_row rows ->
  exists out, history_items rows = Ok out /\ Forall2 shows rows out.
Proof.
  induction 1 as [|r rows (l & Hl & _) Hrows (out & Hout & Hshow)]; simpl.
  - exists []. split; [reflexivity | constructor].
  - unfold history_item. rewrite Hl, Hout. eexists. split; [reflexivity|].
    constructor; [|assumption]. repeat split. simpl. assumption.
Qed.

(** The integers of 64 bits are those from -2^63 up to 2^63, the latter
    left out. *)
Lemma fits_int64_spec (n : Z) :
  fits_int64 n = true <-> (- 2 ^ 63 <= n < 2 ^ 63)%Z.
Proof.
  unfold fits_int64. rewrite andb_true_iff, !Z.leb_le.
  change (2 ^ 63)%Z with 9223372036854775808%Z. lia.
Qed.

(** Within the 64 bits the listing is that of the rows the limit keeps. *)
Lemma get_history_in_range (limit : Z) (db : store) :
  fits_int64 limit = true ->
  get_history limit db = history_items (limit_rows limit (order_by_created_at_desc db)).
Proof. intros H. unfold get_history, sql_limit. rewrite H. reflexivity. Qed.

(** Outside them the driver raises. *)
Lemma get_history_overflow (limit : Z) (db : store) :
  fits_int64 limit = false ->
  get_history limit db
  = Raise (OverflowError (lit "Python int too large to convert to SQLite INTEGER")).
Proof. intros H. unfold get_history, sql_limit. rewrite H. reflexivity. Qed.

(** The listing of a well-formed table for a limit that is not negative
    and fits. *)
Lemma get_history_spec (limit : Z) (db : store) :
  Forall well_formed_row db -> (0 <= limit)%Z -> fits_int64 limit = true ->
  exists sorted out,
    get_history limit db = Ok out
    /\ sorted ≡ₚ db
    /\ StronglySorted newer_first sorted
    /\ Forall2 shows (take (Z.to_nat limit) sorted) out
    /\ (Z.of_nat (length out) <= limit)%Z.
Proof.
  intros Hwf Hlim Hfits. rewrite get_history_in_range by assumption.
  unfold limit_rows, order_by_created_at_desc.
  assert (Hneg : (limit <? 0)%Z = false) by (apply Z.ltb_ge; assumption).
  rewrite Hneg. set (sorted := merge_sort newer_first db).
  assert (Hperm : sorted ≡ₚ db) by apply merge_sort_Permutation.
  assert (Hsorted : StronglySorted newer_first sorted)
    by (apply StronglySorted_merge_sort; apply _).
  assert (Hwf' : Forall well_formed_row (take (Z.to_nat limit) sorted)).
  { apply Forall_take. rewrite Hperm. assumption. }
  destruct (history_items_shows _ Hwf') as (out & Hout & Hshow).
  exists sorted, out. repeat split; try assumption.
  apply Forall2_length in Hshow. rewrite <- Hshow, length_take. lia.
Qed.

(** A negative limit that fits lists the whole table. *)
Lemma get_history_unbounded (limit : Z) (db : store) :
  Forall well_formed_row db -> (limit < 0)%Z -> fits_int64 limit = true ->
  exists out, get_history limit db = Ok out /\ length out = length db.
Proof.
  intros Hwf Hlim Hfits. rewrite get_history_in_range by assumption.
  unfold limit_rows, order_by_created_at_desc.
  assert (Hneg : (limit <? 0)%Z = true) by (apply Z.ltb_lt; assumption).
  rewrite Hneg.
  assert (Hperm : merge_sort newer_first db ≡ₚ db) by apply merge_sort_Permutation.
  assert (Hwf' : Forall well_formed_row (merge_sort newer_first db))
    by (rewrite Hperm; assumption).
  destruct (history_items_shows _ Hwf') as (out & Hout & Hshow).
  exists out. split; [assumption|].
  apply Forall2_length in Hshow. rewrite <- Hshow. apply Permutation_length. assumption.
Qed.

End Table.

(** * The claims *)

Section Claims.

Context {R : Runtime}.

(** C1. A request whose [user_input] is empty or made of white space only
    fails with status 400, and the table is left as it was: no row is
    stored. *)
Theorem blank_input_is_rejected (w : World) (payload : RecommendRequest.t) (db : store) :
  only_whitespace (RecommendRequest.user_input payload) = true ->
  exists detail,
    recommend w payload db = (HTTPException 400 detail, db)
    /\ handle db (Recommend w payload) = db.
Proof.
  intros H. eexists. unfold handle. rewrite recommend_blank by assumption.
  split; reflexivity.
Qed.

(** C2. For an input that passes the guard, the call fails with status 500
    exactly when the provider call raises, or no text comes back, or no
    array can be recovered from the text; the detail is then the message of
    the error the helper raised, the table is left as it was, and no other
    failure status occurs. *)
Theorem upstream_failure_is_500 (w : World) (payload : RecommendRequest.t) (db : store) :
  let user_input := RecommendRequest.user_input payload in
  only_whitespace user_input = false ->
  (upstream_failure w user_input
   <-> exists detail, recommend w payload db = (HTTPException 500 detail, db))
  /\ (forall detail,
        recommend w payload db = (HTTPException 500 detail, db)
        <-> upstream_error w user_input detail)
  /\ (forall status detail db',
        recommend w payload db = (HTTPException status detail, db') ->
        status = 500%Z /\ db' = db
        /\ exists e, ask_openai_for_movies w user_input = Raise e
                     /\ detail = exn_str e).
Proof.
  intros user_input Hb. split; [|split].
  - split.
    + intros Hup. apply ask_raises_spec in Hup. destruct Hup as [e He].
      exists (exn_str e). apply recommend_ask_raises; assumption.
    + intros [detail Hd]. apply ask_raises_spec.
      destruct (recommend_http_exception _ _ _ _ _ _ Hb Hd) as (_ & _ & e & He & _).
      eauto.
  - intros detail. split.
    + intros Hd.
      destruct (recommend_http_exception _ _ _ _ _ _ Hb Hd) as (_ & _ & e & He & ->).
      apply ask_raises_detail in He. destruct He as (d & -> & Hup). exact Hup.
    + intros Hup.
      assert (He : ask_openai_for_movies w user_input = Raise (RuntimeError detail))
        by (apply ask_raises_detail; eauto).
      apply (recommend_ask_raises w payload db _ Hb He).
  - intros status detail db' Hd.
    apply (recommend_http_exception _ _ _ _ _ _ Hb Hd).
Qed.

(** C3. When the model's text is not itself a JSON array but has a part
    that runs from its first opening bracket to its last closing bracket,
    the helper takes exactly that part, and if the part is a JSON array the
    helper returns its elements and the call goes on with them: it
    normalises them, and it returns the normalisation and stores it in a
    new row when the text of the normalisation can be encoded in UTF-8;
    when it cannot, the commit raises and the table is left as it was. *)
Theorem bracketed_array_is_extracted (w : World) (payload : RecommendRequest.t)
    (db : store) (resp : Response) (sub : str) (l : list value) :
  let user_input := RecommendRequest.user_input payload in
  let text := response_text resp in
  only_whitespace user_input = false ->
  responses_create w (make_request user_input) = Replied resp ->
  (forall l0, ~ is_array text l0) ->
  bracketed text sub ->
  is_array sub l ->
  Str.slice text (Str.find LBRACKET text) (Str.rfind RBRACKET text + 1) = sub
  /\ extract_array text = Ok l
  /\ ask_openai_for_movies w user_input = Ok l
  /\ recommend w payload db
     = if utf8_encodable (json_dumps (VList (normalize l)))
       then (Return (normalize l),
             db ++ [{| Recommendation.id := next_id db;
                       Recommendation.user_input := Str.strip user_input;
                       Recommendation.recommended_movies :=
                         json_dumps (VList (normalize l));
                       Recommendation.created_at := utcnow w |}])
       else (Unhandled (UnicodeEncodeError
                          (encode_error_text (json_dumps (VList (normalize l))))),
             db).
Proof.
  intros user_input text Hb Hcall Hno Hsub Harr.
  assert (Hx : extract_array text = Ok l).
  { apply extract_array_spec. right. split; [assumption|]. exists sub. split; assumption. }
  assert (Hask : ask_openai_for_movies w user_input = Ok l).
  { unfold ask_openai_for_movies. rewrite Hcall. cbv zeta. fold text.
    assert (F : Str.falsy text = false).
    { destruct Hsub as (pre & mid & post & E & _). rewrite E.
      destruct pre; reflexivity. }
    rewrite F. exact Hx. }
  split; [|split; [exact Hx|split; [exact Hask|]]].
  - destruct (bracketed_guard text) as [_ Hslice]. cbv zeta in Hslice.
    symmetry. apply Hslice. assumption.
  - apply (recommend_stores w payload db l Hb Hask).
Qed.

(** C4, amended. Normalisation keeps a [dict] that has a [title] key, with
    the title turned into text and stripped of surrounding white space and
    with year and reason turned into text, or [None] when absent or null;
    it keeps a bare string as a record with the stripped string as title
    and no year and no reason; it drops every other element; and the kept
    elements stay in order. *)
Theorem normalize_strips_titles (items out : list value) :
  normalizes Str.strip items out <-> out = normalize items.
Proof.
  assert (H : normalizes Str.strip items (normalize items)).
  { induction items as [|item items IH]; [constructor|].
    rewrite normalize_cons.
    destruct item as [| b | z | x | s | l | d];
      try (apply normalizes_drop; [reflexivity | exact IH]).
    - apply normalizes_str. exact IH.
    - simpl. unfold dict_has.
      destruct (dict_get d (lit "title")) as [v|] eqn:E.
      + apply normalizes_dict; assumption.
      + apply normalizes_drop; [|exact IH]. simpl. unfold dict_has. rewrite E.
        reflexivity. }
  split.
  - intros Hout. eapply normalizes_functional; eassumption.
  - intros ->. exact H.
Qed.

(** C5, amended. When the model's array is [movie_list] and the call
    returns, the recommendations are as many as the elements of the array
    that are strings or dicts with a title key: never more than the array
    has, and exactly as many when every element is of that kind. *)
Theorem recommendations_count (w : World) (payload : RecommendRequest.t)
    (db db' : store) (movie_list body : list value) :
  ask_openai_for_movies w (RecommendRequest.user_input payload) = Ok movie_list ->
  recommend w payload db = (Return body, db') ->
  length body = length (List.filter kept movie_list)
  /\ (length body <= length movie_list)%nat
  /\ (forallb kept movie_list = true -> length body = length movie_list).
Proof.
  intros Hask Hrec.
  destruct (recommend_returns _ _ _ _ _ Hrec) as (l & _ & Hl & -> & _).
  rewrite Hask in Hl. injection Hl as <-.
  rewrite length_normalize. split; [reflexivity|]. split.
  - apply List.filter_length_le.
  - intros Hall. f_equal. apply List.forallb_filter_id. assumption.
Qed.

(** C6. In every state the table can reach, the stored text of every row
    reads back as a list of suggestion records, each with a title that is a
    string; and every request, of either kind, leaves the rows that are
    there as they are and where they are, adding at most one at the end. *)
Theorem stored_rows_stay_well_formed (rqs : list request) :
  Forall well_formed_row (run rqs)
  /\ forall rq, exists new,
       run (rqs ++ [rq]) = run rqs ++ new /\ (length new <= 1)%nat.
Proof.
  split; [apply run_well_formed|].
  intros rq. rewrite run_snoc.
  destruct (handle_appends (run rqs) rq) as (new & E & Hlen & _). eauto.
Qed.

(** C7, amended. In every state the table can reach and for every limit
    that is not negative and fits in 64 bits, the history returns at most
    that many elements: they show the first rows, up to the limit, of an
    arrangement of the whole table by creation time with the newest first,
    each element with the stored list read back and the time stamp in ISO
    format. *)
Theorem history_newest_first (rqs : list request) (limit : Z) :
  (0 <= limit)%Z -> (limit < 2 ^ 63)%Z ->
  exists sorted out,
    get_history limit (run rqs) = Ok out
    /\ sorted ≡ₚ run rqs
    /\ StronglySorted newer_first sorted
    /\ Forall2 shows (take (Z.to_nat limit) sorted) out
    /\ (Z.of_nat (length out) <= limit)%Z.
Proof.
  intros H Hmax.
  apply get_history_spec; [apply run_well_formed | assumption |].
  apply fits_int64_spec. lia.
Qed.

(** C8. After a call that returns, the text stored in the new row reads
    back, with [json.loads] as [get_history] applies it, as the very list
    the call returned. *)
Theorem stored_list_round_trip (w : World) (payload : RecommendRequest.t)
    (db db' : store) (body : list value) :
  recommend w payload db = (Return body, db') ->
  exists r,
    db' = db ++ [r]
    /\ json_loads (Recommendation.recommended_movies r) = Ok (VList body)
    /\ exists h, history_item r = Ok h /\ h_recommended_movies h = VList body.
Proof.
  intros Hrec.
  destruct (recommend_returns _ _ _ _ _ Hrec) as (l & _ & _ & -> & ->).
  eexists. split; [reflexivity|].
  assert (E : json_loads (json_dumps (VList (normalize l))) = Ok (VList (normalize l)))
    by (apply loads_dumps_suggestions, normalize_suggestions).
  split; [exact E|].
  unfold history_item. cbn [Recommendation.recommended_movies]. rewrite E.
  eexists. split; reflexivity.
Qed.

(** C9, amended. After a call that returns, the [user_input] of the new
    row is the submitted text with the white space at its two ends
    removed. *)
Theorem stripped_input_is_persisted (w : World) (payload : RecommendRequest.t)
    (db db' : store) (body : list value) :
  recommend w payload db = (Return body, db') ->
  exists r,
    db' = db ++ [r]
    /\ Recommendation.user_input r = Str.strip (RecommendRequest.user_input payload).
Proof.
  intros Hrec.
  destruct (recommend_returns _ _ _ _ _ Hrec) as (l & _ & _ & _ & ->).
  eexists. split; reflexivity.
Qed.

(** C10. When the input passes the guard and the model's text yields an
    array that is empty, or whose elements are all of the kinds that
    normalisation drops, the call returns an empty list of recommendations
    and stores a row whose list is the text of the empty array, which reads
    back as the empty list. *)
Theorem empty_array_is_a_success (w : World) (payload : RecommendRequest.t)
    (db : store) (resp : Response) (movie_list : list value) :
  only_whitespace (RecommendRequest.user_input payload) = false ->
  responses_create w (make_request (RecommendRequest.user_input payload)) = Replied resp ->
  Str.falsy (response_text resp) = false ->
  extract_array (response_text resp) = Ok movie_list ->
  forallb (fun item => negb (kept item)) movie_list = true ->
  recommend w payload db
  = (Return [],
     db ++ [{| Recommendation.id := next_id db;
               Recommendation.user_input := Str.strip (RecommendRequest.user_input payload);
               Recommendation.recommended_movies := [LBRACKET; RBRACKET];
               Recommendation.created_at := utcnow w |}])
  /\ json_loads [LBRACKET; RBRACKET] = Ok (VList []).
Proof.
  intros Hb Hcall Htext Harr Hdrop. split; [|reflexivity].
  rewrite recommend_not_blank by assumption.
  unfold ask_openai_for_movies. rewrite Hcall. cbv zeta. rewrite Htext, Harr.
  rewrite (normalize_all_dropped _ Hdrop). reflexivity.
Qed.

End Claims.

(** * Further properties *)

(** ** What [strip] removes *)

Lemma lstrip_split (s : str) :
  exists pre, s = pre ++ Str.lstrip s /\ only_whitespace pre = true.
Proof.
  induction s as [|c s (pre & E & Hpre)]; [exists []; split; reflexivity|].
  simpl. destruct (Str.isspace c) eqn:Hc.
  - exists (c :: pre). split; [simpl; congruence|]. simpl. rewrite Hc. exact Hpre.
  - exists []. split; reflexivity.
Qed.

Lemma lstrip_head (s : str) (c : N) (r : str) :
  Str.lstrip s = c :: r -> Str.isspace c = false.
Proof.
  induction s as [|x s IH]; simpl; [discriminate|].
  destruct (Str.isspace x) eqn:Hx; [exact IH|]. intros [= <- <-]. exact Hx.
Qed.

Lemma lstrip_fixed (s : str) :
  match s with c :: _ => Str.isspace c = false | [] => True end -> Str.lstrip s = s.
Proof. destruct s as [|c s]; simpl; [reflexivity|]. intros ->. reflexivity. Qed.

Lemma only_whitespace_rev (s : str) : only_whitespace (rev s) = only_whitespace s.
Proof.
  unfold only_whitespace. apply eq_true_iff_eq. rewrite !forallb_forall.
  split; intros H x Hx; apply H; [apply -> in_rev | apply <- in_rev]; exact Hx.
Qed.

(** [strip] takes white space, and nothing else, off the two ends. *)
Lemma strip_split (s : str) :
  exists pre post,
    s = pre ++ Str.strip s ++ post
    /\ only_whitespace pre = true /\ only_whitespace post = true
    /\ trimmed (Str.strip s) = true.
Proof.
  destruct (lstrip_split s) as (pre & E1 & Hpre).
  destruct (lstrip_split (rev (Str.lstrip s))) as (tsop & E2 & Htsop).
  exists pre, (rev tsop).
  assert (E3 : Str.lstrip s = Str.strip s ++ rev tsop).
  { unfold Str.strip, Str.rstrip. rewrite <- rev_app_distr, <- E2, rev_involutive.
    reflexivity. }
  split; [rewrite <- E3; exact E1|]. split; [exact Hpre|].
  split; [rewrite only_whitespace_rev; exact Htsop|].
  unfold trimmed. destruct (Str.strip s) as [|c t] eqn:Es; [reflexivity|].
  assert (Hc : Str.isspace c = false).
  { apply (lstrip_head s c (t ++ rev tsop)). exact E3. }
  rewrite <- Es. unfold Str.strip, Str.rstrip. rewrite rev_involutive.
  destruct (Str.lstrip (rev (Str.lstrip s))) as [|d u] eqn:Ed.
  { unfold Str.strip, Str.rstrip in Es. rewrite Ed in Es. discriminate. }
  apply lstrip_head in Ed. rewrite Hc, Ed. reflexivity.
Qed.

Lemma lstrip_app_blank (pre x : str) :
  only_whitespace pre = true -> Str.lstrip (pre ++ x) = Str.lstrip x.
Proof.
  induction pre as [|c pre IH]; simpl; [reflexivity|].
  intros [Hc Hp]%andb_true_iff. rewrite Hc. auto.
Qed.

(** Conversely, a trimmed text with white space put around it strips back
    to itself. *)
Lemma strip_unique (pre t post : str) :
  only_whitespace pre = true -> only_whitespace post = true -> trimmed t = true ->
  Str.strip (pre ++ t ++ post) = t.
Proof.
  intros Hpre Hpost Ht. unfold Str.strip. rewrite lstrip_app_blank by assumption.
  destruct t as [|c t'].
  - simpl. rewrite lstrip_blank by exact Hpost. reflexivity.
  - unfold trimmed in Ht. destruct (rev (c :: t')) as [|d u] eqn:Er.
    { apply (f_equal (@length N)) in Er. rewrite length_rev in Er. discriminate. }
    apply andb_true_iff in Ht. destruct Ht as [Hc Hd].
    apply negb_true_iff in Hc, Hd.
    rewrite (lstrip_fixed ((c :: t') ++ post)) by exact Hc.
    unfold Str.rstrip. rewrite rev_app_distr, lstrip_app_blank
      by (rewrite only_whitespace_rev; exact Hpost).
    rewrite Er, (lstrip_fixed (d :: u)) by exact Hd.
    rewrite <- Er. apply rev_involutive.
Qed.

Lemma strip_idempotent (s : str) : Str.strip (Str.strip s) = Str.strip s.
Proof.
  destruct (strip_split s) as (_ & _ & _ & _ & _ & Ht).
  pose proof (strip_unique [] (Str.strip s) [] eq_refl eq_refl Ht) as H.
  rewrite app_nil_r in H. exact H.
Qed.

Lemma strip_trimmed (s : str) : trimmed s = true -> Str.strip s = s.
Proof.
  intros Ht. pose proof (strip_unique [] s [] eq_refl eq_refl Ht) as H.
  rewrite app_nil_r in H. exact H.
Qed.

(** ** What a scan consumes *)

Section Suffix.
Context {R : Runtime}.

Lemma skip_ws_suffix (s : str) : skip_ws s `suffix_of` s.
Proof.
  induction s as [|c s IH]; simpl; [reflexivity|].
  destruct (is_json_ws c); [apply suffix_cons_r; exact IH | reflexivity].
Qed.

(** Walks from the text left by a scan back to the text it was given,
    through the facts at hand. *)
Ltac chain :=
  solve
    [ reflexivity
    | assumption
    | match goal with
      | H : ?k `suffix_of` ?x |- ?k `suffix_of` _ => etrans; [exact H|]; chain
      | H : _ :: ?k `suffix_of` ?x |- ?k `suffix_of` _ =>
          etrans; [exact (suffix_cons_l _ _ _ H)|]; chain
      | |- skip_ws ?r `suffix_of` _ => etrans; [apply skip_ws_suffix|]; chain
      end
    | apply suffix_cons_r; chain ].

Lemma scanstring_suffix (n : nat) (s t k : str) :
  (length s <= n)%nat -> scanstring s = Some (t, k) -> k `suffix_of` s.
Proof.
  revert s t k. induction n as [|n IH]; intros s t k Hn.
  - destruct s; [discriminate | simpl in Hn; lia].
  - destruct s as [|c r]; [discriminate|]. simpl.
    repeat case_match; try discriminate; subst;
      try (intros [= <- <-]; chain);
      intros Hs; apply scan_cons_some in Hs; destruct Hs as [t' Hs];
      (apply IH in Hs; [chain | simpl in *; lia]).
Qed.

Lemma span_digits_split (s d k : str) : span_digits s = (d, k) -> s = d ++ k.
Proof.
  revert d k. induction s as [|c s IH]; intros d k; simpl.
  - intros [= <- <-]. reflexivity.
  - destruct (is_digit c).
    + destruct (span_digits s) as [d' k'] eqn:E. intros [= <- <-].
      simpl. rewrite (IH d' k' eq_refl). reflexivity.
    + intros [= <- <-]. reflexivity.
Qed.

Lemma span_digits_suffix (s d k : str) : span_digits s = (d, k) -> k `suffix_of` s.
Proof. intros H. apply span_digits_split in H. subst. apply suffix_app_r. reflexivity. Qed.

Ltac digits_suffix :=
  repeat match goal with
         | H : span_digits _ = _ |- _ => apply span_digits_suffix in H
         end.

Lemma match_integer_suffix (s i r : str) :
  match_integer s = Some (i, r) -> r `suffix_of` s.
Proof.
  unfold match_integer. destruct s as [|c s']; [discriminate|].
  destruct (c =? MINUS); repeat case_match; try discriminate;
    intros [= <- <-]; simplify_eq; digits_suffix; chain.
Qed.

Lemma match_frac_suffix (s f r : str) : match_frac s = (f, r) -> r `suffix_of` s.
Proof.
  unfold match_frac. repeat case_match; intros [= <- <-]; simplify_eq;
    digits_suffix; chain.
Qed.

Lemma match_exp_suffix (s e r : str) : match_exp s = (e, r) -> r `suffix_of` s.
Proof.
  unfold match_exp. repeat case_match; intros [= <- <-]; simplify_eq;
    digits_suffix; chain.
Qed.

Lemma scan_number_suffix (s : str) (v : value) (r : str) :
  scan_number s = Some (v, r) -> r `suffix_of` s.
Proof.
  unfold scan_number.
  destruct (match_integer s) as [[i r0]|] eqn:Ei; [|discriminate].
  destruct (match_frac r0) as [f r1] eqn:Ef.
  destruct (match_exp r1) as [e r2] eqn:Ee.
  apply match_integer_suffix in Ei. apply match_frac_suffix in Ef.
  apply match_exp_suffix in Ee.
  repeat case_match; intros [= <- <-]; chain.
Qed.

(** An atom is never a list. *)
Lemma scan_atom_suffix (s : str) (v : value) (r : str) :
  scan_atom s = Scanned v r -> r `suffix_of` s /\ forall l, v <> VList l.
Proof.
  unfold scan_atom. unfold scan_number.
  repeat case_match; try discriminate; intros [= <- <-]; simplify_eq;
    (split; [try apply suffix_drop | discriminate]).
  all: repeat match goal with
         | H : match_integer _ = Some _ |- _ => apply match_integer_suffix in H
         | H : match_frac _ = _ |- _ => apply match_frac_suffix in H
         | H : match_exp _ = _ |- _ => apply match_exp_suffix in H
         end; chain.
Qed.

Ltac suffixes :=
  repeat match goal with
         | H : skip_ws ?r = ?x |- _ =>
             let L := fresh "L" in
             pose proof (skip_ws_suffix r) as L; rewrite H in L; clear H
         | H : scanstring ?r = Some _ |- _ =>
             apply (scanstring_suffix (length r)) in H; [|lia]
         | H : scan_atom _ = Scanned _ _ |- _ =>
             apply scan_atom_suffix in H; destruct H
         end.

(** What a scan leaves is the end of what it was given; and a list is
    scanned only from a text that opens with a bracket, up to and with a
    closing bracket. *)
Lemma scan_suffix (n : nat) :
  (forall s v k, scan_once n s = Scanned v k ->
     k `suffix_of` s
     /\ forall l, v = VList l ->
          (exists r, s = LBRACKET :: r) /\ RBRACKET :: k `suffix_of` s)
  /\ (forall s vs k, array_items n s = Scanned vs k -> RBRACKET :: k `suffix_of` s)
  /\ (forall s ps k, object_items n s = Scanned ps k -> k `suffix_of` s).
Proof.
  induction n as [|n (IHs & IHa & IHo)]; [repeat split; discriminate|].
  split; [|split].
  - intros s v k. rewrite scan_once_S. intros Hk. split; [|intros l ->; split].
    + revert Hk.
      repeat case_match; try discriminate; intros Hk;
        try (injection Hk as <- <-); subst;
        repeat match goal with
               | H : object_items n _ = Scanned _ _ |- _ => apply IHo in H
               | H : array_items n _ = Scanned _ _ |- _ => apply IHa in H
               end; suffixes; chain.
    + revert Hk.
      repeat case_match; try discriminate; intros Hk;
        try (injection Hk as <-); subst;
        repeat match goal with
               | H : (_ =? _) = true |- _ => apply N.eqb_eq in H; subst
               end;
        try (apply scan_atom_suffix in Hk; destruct Hk as [_ Hk]; exfalso;
             eapply Hk; reflexivity);
        eauto.
    + revert Hk.
      repeat case_match; try discriminate; intros Hk;
        try (injection Hk as <-); subst;
        repeat match goal with
               | H : (_ =? _) = true |- _ => apply N.eqb_eq in H; subst
               | H : array_items n _ = Scanned _ _ |- _ => apply IHa in H
               end;
        try (apply scan_atom_suffix in Hk; destruct Hk as [_ Hk]; exfalso;
             eapply Hk; reflexivity);
        suffixes; chain.
  - intros s vs k. rewrite array_items_S.
    repeat case_match; try discriminate; intros Hk;
      try (injection Hk as <- <-); subst;
      repeat match goal with
             | H : (_ =? _) = true |- _ => apply N.eqb_eq in H; subst
             | H : scan_once n _ = Scanned _ _ |- _ => apply IHs in H; destruct H as [H _]
             | H : array_items n _ = Scanned _ _ |- _ => apply IHa in H
             end; suffixes; chain.
  - intros s ps k. rewrite object_items_S.
    repeat case_match; try discriminate; intros Hk;
      try (injection Hk as <- <-); subst;
      repeat match goal with
             | H : scan_once n _ = Scanned _ _ |- _ => apply IHs in H; destruct H as [H _]
             | H : object_items n _ = Scanned _ _ |- _ => apply IHo in H
             end; suffixes; chain.
Qed.

(** A text that [json.loads] reads as a list has both brackets in it. *)
Lemma array_has_brackets (text : str) (l : list value) :
  is_array text l -> In LBRACKET text /\ In RBRACKET text.
Proof.
  unfold is_array, json_loads, decode.
  destruct (Str.startswith [65279] text); [discriminate|].
  destruct (scan_once (scan_budget text) (skip_ws text)) as [v k| |] eqn:E;
    try discriminate.
  destruct (skip_ws k); [|discriminate]. intros [= ->].
  destruct (scan_suffix (scan_budget text)) as (Hs & _ & _).
  destruct (Hs _ _ _ E) as [_ Hl]. destruct (Hl l eq_refl) as [[r Hr] Hclose].
  pose proof (skip_ws_suffix text) as Hws.
  split.
  - apply list_elem_of_In. eapply elem_of_suffix; [|exact Hws].
    rewrite Hr. left.
  - apply list_elem_of_In. eapply elem_of_suffix; [|etrans; [exact Hclose | exact Hws]].
    left.
Qed.
End Suffix.

(** ** The handlers, further *)

Section Further.

Context {R : Runtime}.

Lemma strip_not_blank (s : str) :
  only_whitespace s = false -> Str.strip s <> [].
Proof.
  intros H E. apply strip_nil_blank in E. unfold only_whitespace in H. congruence.
Qed.

(** X1. The call has four outcomes and no other.  Status 400 is the
    outcome of the inputs made of white space only, and of no other input.
    Status 500 is the outcome of the other inputs on which the provider
    call raises, no text comes back or no array can be recovered, and of
    no other.  An error that is not handled is the outcome when the helper
    returns an array whose normalisation, as text, cannot be encoded in
    UTF-8: it is the [UnicodeEncodeError] of the commit.  Else the call
    returns a body.  The table is left as it was exactly when the call
    does not return, and gains one row exactly when it returns. *)
Theorem recommend_outcomes (w : World) (payload : RecommendRequest.t) (db : store) :
  let user_input := RecommendRequest.user_input payload in
  (only_whitespace user_input = true
   <-> exists detail, (recommend w payload db).1 = HTTPException 400 detail)
  /\ (only_whitespace user_input = false /\ upstream_failure w user_input
      <-> exists detail, (recommend w payload db).1 = HTTPException 500 detail)
  /\ (forall status detail,
        (recommend w payload db).1 = HTTPException status detail ->
        status = 400%Z \/ status = 500%Z)
  /\ (forall e,
        (recommend w payload db).1 = Unhandled e
        <-> only_whitespace user_input = false
            /\ exists l,
                 ask_openai_for_movies w user_input = Ok l
                 /\ utf8_encodable (json_dumps (VList (normalize l))) = false
                 /\ e = UnicodeEncodeError
                          (encode_error_text (json_dumps (VList (normalize l)))))
  /\ ((forall body, (recommend w payload db).1 <> Return body)
      <-> (recommend w payload db).2 = db)
  /\ ((exists body, (recommend w payload db).1 = Return body)
      <-> length (recommend w payload db).2 = S (length db)).
Proof.
  intros user_input. subst user_input.
  destruct (only_whitespace (RecommendRequest.user_input payload)) eqn:Hb.
  { rewrite recommend_blank by assumption. cbn [fst snd].
    split; [|split; [|split; [|split; [|split]]]].
    - split; [eauto | reflexivity].
    - split; [intros [[=] _] | intros [detail [=]]].
    - intros status detail [= <- _]. left. reflexivity.
    - intros e. split; [discriminate | intros [[=] _]].
    - split; [reflexivity | discriminate].
    - split; [intros [body [=]] | lia]. }
  destruct (ask_openai_for_movies w (RecommendRequest.user_input payload))
    as [l|e0] eqn:Hask.
  - assert (Hup : ~ upstream_failure w (RecommendRequest.user_input payload)).
    { intros Hup. apply ask_raises_spec in Hup. destruct Hup as [e He]. congruence. }
    rewrite (recommend_stores w payload db l Hb Hask).
    destruct (utf8_encodable (json_dumps (VList (normalize l)))) eqn:Henc; cbn [fst snd].
    + split; [|split; [|split; [|split; [|split]]]].
      * split; [discriminate | intros [detail [=]]].
      * split; [intros [_ H]; contradiction | intros [detail [=]]].
      * intros status detail [=].
      * intros e. split; [discriminate|].
        intros (_ & l' & [= <-] & Hfalse & _). congruence.
      * split.
        -- intros H. exfalso. eapply H. reflexivity.
        -- unfold insert_row. intros H. apply (f_equal (@length _)) in H.
           rewrite length_app in H. simpl in H. lia.
      * split; [|eauto]. intros _. unfold insert_row. rewrite length_app. simpl. lia.
    + split; [|split; [|split; [|split; [|split]]]].
      * split; [discriminate | intros [detail [=]]].
      * split; [intros [_ H]; contradiction | intros [detail [=]]].
      * intros status detail [=].
      * intros e. split.
        -- intros [= <-]. split; [reflexivity|]. exists l. repeat split. exact Henc.
        -- intros (_ & l' & [= <-] & _ & ->). reflexivity.
      * split; [reflexivity | discriminate].
      * split; [intros [body [=]] | lia].
  - rewrite (recommend_ask_raises w payload db e0 Hb Hask). cbn [fst snd].
    split; [|split; [|split; [|split; [|split]]]].
    + split; [discriminate | intros [detail [=]]].
    + split; [eauto|]. intros _. split; [reflexivity|].
      apply ask_raises_spec. eauto.
    + intros status detail [= <- _]. right. reflexivity.
    + intros e. split; [discriminate|]. intros (_ & l' & [=] & _).
    + split; [reflexivity | discriminate].
    + split; [intros [body [=]] | lia].
Qed.

(** X2. The text stored by a call that returns is the submitted text with
    white space, and nothing else, taken off its two ends: what is inside
    is kept as it came, and what is stored is not empty and has no white
    space at either end. *)
Theorem stored_input_is_the_core (w : World) (payload : RecommendRequest.t)
    (db db' : store) (body : list value) :
  recommend w payload db = (Return body, db') ->
  exists r pre post,
    db' = db ++ [r]
    /\ RecommendRequest.user_input payload = pre ++ Recommendation.user_input r ++ post
    /\ only_whitespace pre = true /\ only_whitespace post = true
    /\ trimmed (Recommendation.user_input r) = true
    /\ Recommendation.user_input r <> [].
Proof.
  intros Hrec.
  destruct (recommend_returns _ _ _ _ _ Hrec) as (l & Hb & _ & _ & ->).
  destruct (strip_split (RecommendRequest.user_input payload))
    as (pre & post & E & Hpre & Hpost & Ht).
  eexists _, pre, post. split; [reflexivity|]. simpl.
  repeat split; try assumption. apply strip_not_blank. assumption.
Qed.

(** What each row of a table that the service can reach is made of. *)
Lemma run_rows (rqs : list request) :
  Forall (fun r =>
            exists input movie_list,
              only_whitespace input = false
              /\ Recommendation.user_input r = Str.strip input
              /\ Recommendation.recommended_movies r
                 = json_dumps (VList (normalize movie_list)))
    (run rqs).
Proof.
  induction rqs as [|rq rqs IH] using rev_ind; [constructor|].
  rewrite run_snoc. destruct rq as [w payload | limit]; simpl; [|exact IH].
  destruct (recommend w payload (run rqs)) as [[status detail | body | e] db'] eqn:E; simpl.
  - apply recommend_raises_keeps_table in E. subst db'. exact IH.
  - destruct (recommend_returns _ _ _ _ _ E) as (l & Hb & _ & -> & ->).
    apply Forall_app. split; [exact IH|]. constructor; [|constructor].
    exists (RecommendRequest.user_input payload), l. repeat split. assumption.
  - pose proof (recommend_fails_keeps_table w payload (run rqs)) as H.
    rewrite E in H. simpl in H. rewrite H by discriminate. exact IH.
Qed.

(** X3. In every state the table can reach, no row has an empty
    [user_input], and none has white space at either end of it. *)
Theorem stored_inputs_are_trimmed (rqs : list request) :
  Forall (fun r => Recommendation.user_input r <> []
                   /\ trimmed (Recommendation.user_input r) = true)
    (run rqs).
Proof.
  eapply List.Forall_impl; [|apply run_rows].
  intros r (input & l & Hb & -> & _). split.
  - apply strip_not_blank. assumption.
  - destruct (strip_split input) as (_ & _ & _ & _ & _ & Ht). exact Ht.
Qed.

Lemma normalize_item_suggestion (t : str) (y r : option str) :
  normalize_item (suggestion t y r) = [suggestion (Str.strip t) y r].
Proof. destruct y, r; reflexivity. Qed.

Lemma normalize_item_neat (item : value) :
  Forall neat_suggestion (normalize_item item).
Proof.
  assert (Ht : forall s, trimmed (Str.strip s) = true).
  { intros s. destruct (strip_split s) as (_ & _ & _ & _ & _ & Ht). exact Ht. }
  destruct item; simpl; try constructor.
  - eexists _, _, _. split; [reflexivity | apply Ht].
  - constructor.
  - destruct (dict_has d (lit "title")); constructor; [|constructor].
    eexists _, _, _. split; [reflexivity | apply Ht].
Qed.

(** X4. Every record that normalisation yields has the three keys of a
    suggestion and a title with no white space at either end (the title may
    be empty). *)
Theorem normalized_titles_are_trimmed (movie_list : list value) :
  Forall neat_suggestion (normalize movie_list).
Proof.
  rewrite normalize_flat_map. apply List.Forall_flat_map.
  apply List.Forall_forall. intros item _. apply normalize_item_neat.
Qed.

Lemma normalize_neat (movie_list : list value) :
  Forall neat_suggestion (normalize movie_list).
Proof.
  induction movie_list as [|item l IH]; [constructor|].
  rewrite normalize_cons. apply Forall_app. split; [apply normalize_item_neat | exact IH].
Qed.

Lemma normalize_twice (movie_list : list value) :
  normalize (normalize movie_list) = normalize movie_list.
Proof.
  pose proof (normalize_neat movie_list) as H.
  induction H as [|v vs (t & y & r & -> & Ht) _ IH]; [reflexivity|].
  rewrite normalize_cons, normalize_item_suggestion, IH.
  rewrite (strip_trimmed t Ht). reflexivity.
Qed.

(** X5. Normalising a list that is already normalised changes nothing. *)
Theorem normalize_idempotent (movie_list : list value) :
  normalize (normalize movie_list) = normalize movie_list.
Proof. apply normalize_twice. Qed.

Lemma trimmed_dumps_list (l : list value) : trimmed (json_dumps (VList l)) = true.
Proof.
  cbn [json_dumps]. unfold trimmed. cbn [app]. cbn [rev].
  rewrite rev_app_distr. reflexivity.
Qed.

Lemma dumps_list_not_empty (l : list value) :
  Str.falsy (json_dumps (VList l)) = false.
Proof. reflexivity. Qed.

(** The helper on a reply whose visible text is a JSON array. *)
Lemma ask_clean_array (w : World) (user_input pre text post : str) (resp : Response)
    (l : list value) :
  responses_create w (make_request user_input) = Replied resp ->
  output_text resp = Some (pre ++ text ++ post) ->
  only_whitespace pre = true -> only_whitespace post = true ->
  trimmed text = true -> is_array text l ->
  ask_openai_for_movies w user_input = Ok l.
Proof.
  intros Hcall Hout Hpre Hpost Ht Harr.
  unfold ask_openai_for_movies. rewrite Hcall. cbv zeta.
  assert (E : response_text resp = text).
  { unfold response_text. rewrite Hout. simpl default.
    rewrite (strip_unique pre text post) by assumption.
    destruct text as [|c text']; [|reflexivity].
    destruct (array_has_brackets _ _ Harr) as [[] _]. }
  rewrite E.
  destruct text as [|c text']; [destruct (array_has_brackets _ _ Harr) as [[] _]|].
  simpl Str.falsy. cbv iota. apply extract_array_spec. left. exact Harr.
Qed.

(** X6. A reply whose visible text is a JSON array, with any white space
    before and after it, is taken as that array, whatever the reply's
    [output] holds: the helper returns its elements, and the call returns
    their normalisation and stores it when the text of the normalisation
    can be encoded in UTF-8; when it cannot, the commit raises and the
    table is left as it was. *)
Theorem clean_array_is_taken_as_is (w : World) (payload : RecommendRequest.t)
    (db : store) (resp : Response) (pre text post : str) (l : list value) :
  only_whitespace (RecommendRequest.user_input payload) = false ->
  responses_create w (make_request (RecommendRequest.user_input payload)) = Replied resp ->
  output_text resp = Some (pre ++ text ++ post) ->
  only_whitespace pre = true -> only_whitespace post = true ->
  trimmed text = true -> is_array text l ->
  ask_openai_for_movies w (RecommendRequest.user_input payload) = Ok l
  /\ recommend w payload db
     = if utf8_encodable (json_dumps (VList (normalize l)))
       then (Return (normalize l),
             db ++ [{| Recommendation.id := next_id db;
                       Recommendation.user_input :=
                         Str.strip (RecommendRequest.user_input payload);
                       Recommendation.recommended_movies :=
                         json_dumps (VList (normalize l));
                       Recommendation.created_at := utcnow w |}])
       else (Unhandled (UnicodeEncodeError
                          (encode_error_text (json_dumps (VList (normalize l))))),
             db).
Proof.
  intros Hb Hcall Hout Hpre Hpost Ht Harr.
  assert (Hask : ask_openai_for_movies w (RecommendRequest.user_input payload) = Ok l)
    by (apply (ask_clean_array w _ pre text post resp l); assumption).
  split; [exact Hask|]. apply (recommend_stores w payload db l Hb Hask).
Qed.

(** X7. When the provider answers a later request with the very text that
    an earlier call stored, the later call returns the list the earlier one
    returned. *)
Theorem replayed_list_is_reproduced (w w2 : World) (payload payload2 : RecommendRequest.t)
    (db db' db2 : store) (body : list value) (resp : Response) :
  recommend w payload db = (Return body, db') ->
  only_whitespace (RecommendRequest.user_input payload2) = false ->
  responses_create w2 (make_request (RecommendRequest.user_input payload2)) = Replied resp ->
  (exists r, last db' = Some r
             /\ output_text resp = Some (Recommendation.recommended_movies r)) ->
  (recommend w2 payload2 db2).1 = Return body.
Proof.
  intros Hrec Hb Hcall (r & Hlast & Hout).
  pose proof (recommend_returns_encodable _ _ _ _ _ Hrec) as Henc.
  destruct (recommend_returns _ _ _ _ _ Hrec) as (l & _ & _ & -> & ->).
  unfold insert_row in Hlast. rewrite last_snoc in Hlast. injection Hlast as <-.
  cbn [Recommendation.recommended_movies] in Hout.
  assert (Hask : ask_openai_for_movies w2 (RecommendRequest.user_input payload2)
                 = Ok (normalize l)).
  { apply (ask_clean_array w2 _ [] (json_dumps (VList (normalize l))) [] resp (normalize l));
      try assumption; try reflexivity.
    - rewrite app_nil_r. exact Hout.
    - apply trimmed_dumps_list.
    - apply loads_dumps_suggestions, normalize_suggestions. }
  rewrite (recommend_stores w2 payload2 db2 _ Hb Hask).
  rewrite normalize_twice, Henc. reflexivity.
Qed.

(** X8. A reply with visible text that lacks an opening bracket, or lacks
    a closing one, fails the call with status 500, and the detail quotes the
    text after a fixed sentence. *)
Theorem reply_without_bracket_is_500 (w : World) (payload : RecommendRequest.t)
    (db : store) (resp : Response) :
  only_whitespace (RecommendRequest.user_input payload) = false ->
  responses_create w (make_request (RecommendRequest.user_input payload)) = Replied resp ->
  Str.falsy (response_text resp) = false ->
  ~ In LBRACKET (response_text resp) \/ ~ In RBRACKET (response_text resp) ->
  recommend w payload db
  = (HTTPException 500
       (lit "Model response did not contain a JSON array. Raw response: "
        ++ response_text resp),
     db).
Proof.
  intros Hb Hcall Hf Hno.
  rewrite recommend_not_blank by assumption.
  unfold ask_openai_for_movies. rewrite Hcall. cbv zeta. rewrite Hf.
  unfold extract_array. cbv zeta.
  destruct (loads_list (lit "Parsed JSON is not a list") (response_text resp))
    as [parsed|e] eqn:E.
  { apply loads_list_ok in E. apply array_has_brackets in E. tauto. }
  assert (G : negb (Str.find LBRACKET (response_text resp) =? -1)%Z
              && negb (Str.rfind RBRACKET (response_text resp) =? -1)%Z
              && (Str.find LBRACKET (response_text resp)
                  <? Str.rfind RBRACKET (response_text resp))%Z = false).
  { destruct Hno as [Hno | Hno].
    - unfold Str.find. rewrite find_from_notin by assumption. reflexivity.
    - unfold Str.rfind. rewrite rfind_from_notin by assumption.
      rewrite andb_false_r. reflexivity. }
  rewrite G. reflexivity.
Qed.

Lemma join_pieces_bad (pieces : list value) (v : value) :
  In v pieces -> (forall s, v <> VStr s) -> join_pieces pieces = None.
Proof.
  intros Hin Hv. induction pieces as [|p pieces IH]; [destruct Hin|].
  destruct Hin as [-> | Hin].
  - destruct v; try reflexivity. exfalso. eapply Hv. reflexivity.
  - simpl. rewrite (IH Hin). destruct p; reflexivity.
Qed.

(** X9. When [output_text] has no visible text and some content piece of
    [output] carries a [text] that is not a string, the call fails with
    status 500 and the detail that the response was empty, whatever text the
    other pieces carry. *)
Theorem bad_piece_empties_the_response (w : World) (payload : RecommendRequest.t)
    (db : store) (resp : Response) :
  only_whitespace (RecommendRequest.user_input payload) = false ->
  responses_create w (make_request (RecommendRequest.user_input payload)) = Replied resp ->
  only_whitespace (default [] (output_text resp)) = true ->
  has_bad_piece resp ->
  recommend w payload db = (HTTPException 500 (lit "OpenAI response was empty"), db).
Proof.
  intros Hb Hcall Hblank (d & content & cd & v & Hd & Hc & Hcd & Ht & Hv).
  rewrite recommend_not_blank by assumption.
  unfold ask_openai_for_movies. rewrite Hcall. cbv zeta.
  assert (E : response_text resp = []).
  { unfold response_text. rewrite (strip_blank _ Hblank). simpl Str.falsy. cbv iota.
    rewrite (join_pieces_bad _ v); [reflexivity | | exact Hv].
    apply in_flat_map. exists (VDict d). split; [exact Hd|].
    simpl. rewrite Hc. apply in_flat_map. exists (VDict cd). split; [exact Hcd|].
    rewrite Ht. left. reflexivity. }
  rewrite E. reflexivity.
Qed.

Lemma make_request_inj (a b : str) : make_request a = make_request b -> a = b.
Proof.
  unfold make_request. intros [= H]. unfold user_prompt in H.
  apply app_inv_tail in H. exact H.
Qed.

(** The call looks at its world through the answer to one request, the one
    made of the input as it came, and through the clock. *)
Lemma recommend_depends_on_raw_request (w w' : World) (payload : RecommendRequest.t)
    (db : store) :
  responses_create w' (make_request (RecommendRequest.user_input payload))
  = responses_create w (make_request (RecommendRequest.user_input payload)) ->
  utcnow w' = utcnow w ->
  recommend w' payload db = recommend w payload db.
Proof.
  intros Hcall Hnow. unfold recommend, ask_openai_for_movies. cbv zeta.
  rewrite Hcall, Hnow. reflexivity.
Qed.

(** X10. The call sends the provider the submitted text as it came, white
    space at its ends included, and not the stripped text that it stores.
    For an input that passes the guard: the outcome of the call depends on
    the provider through its answer to the request made of the raw input,
    and on nothing else of it; no other input makes that request; and when
    the provider raises with the user message it was sent for a message,
    the detail of the failure quotes the raw input between the fixed words
    of the prompt. *)
Theorem request_carries_the_raw_input (w w' : World) (payload : RecommendRequest.t)
    (db : store) :
  let raw := RecommendRequest.user_input payload in
  only_whitespace raw = false ->
  (responses_create w' (make_request raw) = responses_create w (make_request raw) ->
   utcnow w' = utcnow w ->
   recommend w' payload db = recommend w payload db)
  /\ (forall other, make_request other = make_request raw <-> other = raw)
  /\ recommend (echoing (utcnow w)) payload db
     = (HTTPException 500
          (lit "OpenAI API request failed: "
           ++ lit "User preference: " ++ raw ++ [LF]
           ++ lit "Return 3-5 movie suggestions as a JSON array."),
        db).
Proof.
  intros raw Hb. split; [|split].
  - apply recommend_depends_on_raw_request.
  - intros other. split; [apply make_request_inj | intros ->; reflexivity].
  - apply (recommend_ask_raises (echoing (utcnow w)) payload db
             (RuntimeError (lit "OpenAI API request failed: " ++ user_prompt raw)) Hb).
    reflexivity.
Qed.

(** The listing of a well-formed table, for any limit that fits. *)
Lemma history_listing (limit : Z) (db : store) :
  Forall well_formed_row db -> fits_int64 limit = true ->
  exists out,
    get_history limit db = Ok out
    /\ Forall2 shows (limit_rows limit (order_by_created_at_desc db)) out.
Proof.
  intros Hwf Hfits. rewrite get_history_in_range by assumption.
  apply history_items_shows.
  assert (Hs : Forall well_formed_row (order_by_created_at_desc db)).
  { unfold order_by_created_at_desc. rewrite merge_sort_Permutation. exact Hwf. }
  unfold limit_rows. destruct (limit <? 0)%Z; [exact Hs | apply Forall_take; exact Hs].
Qed.

Lemma order_by_length (db : store) :
  length (order_by_created_at_desc db) = length db.
Proof. apply Permutation_length, merge_sort_Permutation. Qed.

(** X11. In every state the table can reach the history answers for any
    limit that fits in 64 bits: with as many elements as the limit says or
    the table has, whichever is less, and with as many as the table has
    when the limit is negative.  A limit of zero gives none.  For a limit
    that does not fit, the query raises an [OverflowError]. *)
Theorem history_count (rqs : list request) (limit : Z) :
  if fits_int64 limit
  then exists out,
         get_history limit (run rqs) = Ok out
         /\ length out = (if (limit <? 0)%Z then length (run rqs)
                          else Nat.min (Z.to_nat limit) (length (run rqs)))
  else get_history limit (run rqs)
       = Raise (OverflowError
                  (lit "Python int too large to convert to SQLite INTEGER")).
Proof.
  destruct (fits_int64 limit) eqn:Hfits; [|apply get_history_overflow; exact Hfits].
  destruct (history_listing limit (run rqs) (run_well_formed rqs) Hfits)
    as (out & Hout & Hs).
  exists out. split; [exact Hout|]. apply Forall2_length in Hs. rewrite <- Hs.
  unfold limit_rows. destruct (limit <? 0)%Z.
  - apply order_by_length.
  - rewrite length_take, order_by_length. reflexivity.
Qed.

(** X12. When the limit fits in 64 bits and is negative or not less than
    the number of rows, the history shows every row of the table, each
    once, the newest first. *)
Theorem history_lists_every_row (rqs : list request) (limit : Z) :
  (- 2 ^ 63 <= limit < 2 ^ 63)%Z ->
  (limit < 0 \/ Z.of_nat (length (run rqs)) <= limit)%Z ->
  exists sorted out,
    get_history limit (run rqs) = Ok out
    /\ sorted ≡ₚ run rqs
    /\ StronglySorted newer_first sorted
    /\ Forall2 shows sorted out.
Proof.
  intros Hfits Hlim. apply fits_int64_spec in Hfits.
  destruct (history_listing limit (run rqs) (run_well_formed rqs) Hfits)
    as (out & Hout & Hs).
  exists (order_by_created_at_desc (run rqs)), out.
  split; [exact Hout|]. split; [apply merge_sort_Permutation|].
  split; [apply StronglySorted_merge_sort; apply _|].
  unfold limit_rows in Hs. destruct (limit <? 0)%Z eqn:E; [exact Hs|].
  apply Z.ltb_ge in E. rewrite take_ge in Hs; [exact Hs|].
  rewrite order_by_length. lia.
Qed.

Lemma shows_in (rows : store) (out : list HistoryItem) (r : Recommendation.t) :
  Forall2 shows rows out -> In r rows -> exists h, In h out /\ shows r h.
Proof.
  induction 1 as [|r' h' rows out Hh _ IH]; [intros []|].
  intros [-> | Hin].
  - exists h'. split; [left; reflexivity | exact Hh].
  - destruct (IH Hin) as (h & Hh' & Hs). exists h. split; [right; exact Hh' | exact Hs].
Qed.

(** X13. What a call returns is what the history shows: after a call that
    returns, a listing whose limit fits in 64 bits and leaves room for the
    whole table has an element with the stored input, the returned list and
    the time of the call in ISO format. *)
Theorem history_shows_the_call (rqs : list request) (w : World)
    (payload : RecommendRequest.t) (db' : store) (body : list value) (limit : Z) :
  recommend w payload (run rqs) = (Return body, db') ->
  (- 2 ^ 63 <= limit < 2 ^ 63)%Z ->
  (limit < 0 \/ Z.of_nat (length (run rqs)) < limit)%Z ->
  exists out h,
    get_history limit db' = Ok out
    /\ In h out
    /\ h_user_input h = Str.strip (RecommendRequest.user_input payload)
    /\ h_recommended_movies h = VList body
    /\ h_created_at h = isoformat (utcnow w).
Proof.
  intros Hrec Hfits Hlim. apply fits_int64_spec in Hfits.
  assert (Hrun : db' = run (rqs ++ [Recommend w payload])).
  { rewrite run_snoc. simpl. rewrite Hrec. reflexivity. }
  destruct (recommend_returns _ _ _ _ _ Hrec) as (l & _ & _ & Hbody & Hdb).
  assert (Hround : json_loads (json_dumps (VList body)) = Ok (VList body)).
  { rewrite Hbody. apply loads_dumps_suggestions, normalize_suggestions. }
  assert (Hwf : Forall well_formed_row db') by (rewrite Hrun; apply run_well_formed).
  destruct (history_listing limit db' Hwf Hfits) as (out & Hout & Hs).
  assert (Hall : limit_rows limit (order_by_created_at_desc db')
                 = order_by_created_at_desc db').
  { unfold limit_rows. destruct (limit <? 0)%Z eqn:E; [reflexivity|].
    apply Z.ltb_ge in E. apply take_ge. rewrite order_by_length, Hdb.
    unfold insert_row. rewrite length_app. simpl. lia. }
  rewrite Hall in Hs.
  set (r := {| Recommendation.id := next_id (run rqs);
               Recommendation.user_input := Str.strip (RecommendRequest.user_input payload);
               Recommendation.recommended_movies := json_dumps (VList body);
               Recommendation.created_at := utcnow w |}).
  assert (Hin : In r (order_by_created_at_desc db')).
  { apply list_elem_of_In. unfold order_by_created_at_desc.
    rewrite merge_sort_Permutation, Hdb. unfold insert_row.
    apply list_elem_of_In, in_or_app. right. left. reflexivity. }
  destruct (shows_in _ _ _ Hs Hin) as (h & Hh & _ & Hu & Hm & Hc).
  exists out, h. split; [exact Hout|]. split; [exact Hh|].
  subst r.
  cbn [Recommendation.recommended_movies Recommendation.user_input
       Recommendation.created_at] in Hu, Hm, Hc.
  rewrite Hround in Hm. injection Hm as Hm.
  repeat split; congruence.
Qed.

(** X14. The newest first, on the row just stored: when the clock of a
    call that returns reads later than the time stamp of every row in the
    table, a listing with a limit that fits in 64 bits and is not zero
    begins with that call's row. *)
Theorem history_begins_with_the_latest_call (rqs : list request) (w : World)
    (payload : RecommendRequest.t) (db' : store) (body : list value) (limit : Z) :
  recommend w payload (run rqs) = (Return body, db') ->
  forallb (fun x => later (utcnow w) (Recommendation.created_at x)) (run rqs) = true ->
  (- 2 ^ 63 <= limit < 2 ^ 63)%Z ->
  limit <> 0%Z ->
  exists h rest,
    get_history limit db' = Ok (h :: rest)
    /\ h_user_input h = Str.strip (RecommendRequest.user_input payload)
    /\ h_recommended_movies h = VList body
    /\ h_created_at h = isoformat (utcnow w).
Proof.
  intros Hrec Hlater Hfits Hlim. apply fits_int64_spec in Hfits.
  assert (Hrun : db' = run (rqs ++ [Recommend w payload])).
  { rewrite run_snoc. simpl. rewrite Hrec. reflexivity. }
  destruct (recommend_returns _ _ _ _ _ Hrec) as (l & _ & _ & Hbody & Hdb).
  assert (Hround : json_loads (json_dumps (VList body)) = Ok (VList body)).
  { rewrite Hbody. apply loads_dumps_suggestions, normalize_suggestions. }
  assert (Hwf : Forall well_formed_row db') by (rewrite Hrun; apply run_well_formed).
  destruct (history_listing limit db' Hwf Hfits) as (out & Hout & Hs).
  set (r := {| Recommendation.id := next_id (run rqs);
               Recommendation.user_input := Str.strip (RecommendRequest.user_input payload);
               Recommendation.recommended_movies := json_dumps (VList body);
               Recommendation.created_at := utcnow w |}) in *.
  assert (Hdb' : db' = run rqs ++ [r]) by exact Hdb.
  pose proof (merge_sort_Permutation newer_first db') as Hperm.
  pose proof (StronglySorted_merge_sort newer_first db') as Hsorted.
  fold (order_by_created_at_desc db') in Hperm, Hsorted.
  destruct (order_by_created_at_desc db') as [|h0 tl] eqn:Eo.
  { apply Permutation_length in Hperm. rewrite Hdb', length_app in Hperm.
    simpl in Hperm. lia. }
  assert (Hhead : h0 = r).
  { assert (Hh0 : In h0 (run rqs ++ [r])).
    { apply list_elem_of_In. rewrite <- Hdb', <- Hperm. left. }
    assert (Hr : In r (h0 :: tl)).
    { apply list_elem_of_In. rewrite Hperm, Hdb'. apply list_elem_of_In, in_or_app.
      right. left. reflexivity. }
    apply in_app_or in Hh0. destruct Hh0 as [Hold | [Hnew | []]]; [|congruence].
    destruct Hr as [Hr | Hr]; [exact Hr|]. exfalso.
    inversion Hsorted as [|? ? _ Hfirst]; subst.
    rewrite List.Forall_forall in Hfirst. specialize (Hfirst r Hr).
    unfold newer_first in Hfirst. simpl in Hfirst.
    rewrite forallb_forall in Hlater. specialize (Hlater h0 Hold).
    unfold later in Hlater. rewrite Hfirst in Hlater. discriminate. }
  subst h0.
  assert (Hfirst : exists rows, limit_rows limit (r :: tl) = r :: rows).
  { unfold limit_rows. destruct (limit <? 0)%Z eqn:E; [eauto|].
    apply Z.ltb_ge in E. destruct (Z.to_nat limit) as [|n] eqn:En; [lia|].
    simpl. eauto. }
  destruct Hfirst as [rows Hrows]. rewrite Hrows in Hs.
  inversion Hs as [|? h ? rest (_ & Hu & Hm & Hc) _]; subst.
  exists h, rest. split; [exact Hout|].
  subst r.
  cbn [Recommendation.recommended_movies Recommendation.user_input
       Recommendation.created_at] in Hu, Hm, Hc.
  rewrite Hround in Hm. injection Hm as Hm.
  repeat split; congruence.
Qed.

Lemma escape_char_printable (c : N) : printable_line (escape_char c) = true.
Proof.
  destruct (N.lt_ge_cases c 32) as [Hlt | Hge].
  - assert (E : c = N.of_nat (N.to_nat c)) by (symmetry; apply N2Nat.id).
    assert (Hn : (N.to_nat c < 32)%nat) by lia.
    revert E Hn. generalize (N.to_nat c). intros n -> Hn.
    do 32 (destruct n as [|n]; [reflexivity|]). lia.
  - unfold escape_char.
    repeat match goal with
           | |- context [if ?b then _ else _] => destruct b; [reflexivity|]
           end.
    assert (E : (c <? 32) = false) by (apply N.ltb_ge; exact Hge).
    rewrite E. unfold printable_line. cbn [forallb]. rewrite andb_true_r.
    apply N.leb_le. exact Hge.
Qed.

Lemma esc_printable (s : str) : printable_line (esc s) = true.
Proof.
  induction s as [|c s IH]; [reflexivity|].
  unfold esc, printable_line in *. simpl. rewrite forallb_app, IH, andb_true_r.
  apply escape_char_printable.
Qed.

Lemma dumps_optional_printable (o : option str) :
  printable_line (json_dumps (optional o)) = true.
Proof.
  destruct o as [s|]; [|reflexivity]. simpl. unfold encode_basestring.
  unfold printable_line. simpl. rewrite forallb_app, andb_true_r.
  apply esc_printable.
Qed.

Lemma printable_cons (c : N) (s : str) :
  printable_line (c :: s) = (32 <=? c) && printable_line s.
Proof. reflexivity. Qed.

Lemma printable_app (a b : str) :
  printable_line (a ++ b) = printable_line a && printable_line b.
Proof. apply forallb_app. Qed.

Lemma dumps_suggestion_printable (t : str) (y r : option str) :
  printable_line (json_dumps (suggestion t y r)) = true.
Proof.
  rewrite <- (app_nil_r (json_dumps (suggestion t y r))), dumps_suggestion.
  repeat (rewrite printable_cons || rewrite printable_app).
  pose proof (dumps_optional_printable (Some t)) as Ht. cbn [optional] in Ht.
  rewrite !esc_printable, Ht, !dumps_optional_printable.
  reflexivity.
Qed.

Lemma dumps_suggestions_printable (vs : list value) :
  Forall is_suggestion vs -> printable_line (json_dumps (VList vs)) = true.
Proof.
  intros Hall. cbn [json_dumps app].
  rewrite printable_cons, printable_app.
  assert (H : printable_line (Str.join (lit ", ") (map json_dumps vs)) = true).
  { induction Hall as [|v vs (t & y & r & ->) Hall IH]; [reflexivity|].
    destruct vs as [|v' vs'].
    - cbn [map Str.join]. apply dumps_suggestion_printable.
    - change (Str.join (lit ", ") (map json_dumps (suggestion t y r :: v' :: vs')))
        with (json_dumps (suggestion t y r) ++ lit ", "
              ++ Str.join (lit ", ") (map json_dumps (v' :: vs'))).
      rewrite !printable_app, IH, dumps_suggestion_printable. reflexivity. }
  rewrite H. reflexivity.
Qed.

(** X15. In every state the table can reach, the stored list of every row
    is one line of text with no raw control character in it: what the
    titles, years and reasons hold of such characters is stored escaped. *)
Theorem stored_lists_are_one_line (rqs : list request) :
  Forall (fun r => printable_line (Recommendation.recommended_movies r) = true)
    (run rqs).
Proof.
  eapply List.Forall_impl; [|apply run_rows].
  intros r (_ & l & _ & _ & ->).
  apply dumps_suggestions_printable, normalize_suggestions.
Qed.

End Further.
(** * The claims on concrete requests *)

#[local] Existing Instance literal_runtime.

Example prose_call :
  recommend (answering prose_reply noon) crime_payload []
  = (Return [suggestion (lit "Heat") None None], [crime_row]).
Proof. vm_compute. reflexivity. Qed.

Example prose_helper :
  ask_openai_for_movies (answering prose_reply noon) (lit " crime ")
  = Ok [VStr (lit " Heat "); VInt 7].
Proof. vm_compute. reflexivity. Qed.

(** A reply with half of a surrogate pair in its array: the list cannot be
    stored, the commit raises and the table stays as it was. *)
Example surrogate_call :
  recommend (answering surrogate_reply noon) crime_payload [crime_row]
  = (Unhandled
       (UnicodeEncodeError
          (lit "'utf-8' codec can't encode character '\ud83d' in position 12: surrogates not allowed")),
     [crime_row]).
Proof. vm_compute. reflexivity. Qed.

Example surrogate_helper :
  ask_openai_for_movies (answering surrogate_reply noon) (lit " crime ")
  = Ok [VStr [55357]].
Proof. vm_compute. reflexivity. Qed.

Example surrogate_run_text :
  encode_error_text (lit "ab" ++ [56320; 55357] ++ lit " x")
  = lit "'utf-8' codec can't encode characters in position 2-3: surrogates not allowed".
Proof. vm_compute. reflexivity. Qed.

(** The three calls leave three rows, in the order of the calls. *)
Example three_calls_table :
  map (fun r => (Recommendation.id r, Recommendation.created_at r)) (run three_calls)
  = [(1%Z, evening); (2%Z, morning); (3%Z, noon)].
Proof. vm_compute. reflexivity. Qed.

(** Their history with a limit of two: the newest two, the newest first. *)
Example three_calls_history :
  match get_history 2 (run three_calls) with
  | Ok out => map (fun h => (h_id h, h_created_at h)) out
  | Raise _ => []
  end
  = [(1%Z, lit "2024-05-17T19:30:00.250000"); (3%Z, lit "2024-05-17T12:00:00")].
Proof. vm_compute. reflexivity. Qed.

(** A limit of 2^63 does not fit and the query raises; the least limit
    that fits, -2^63, is negative and lists every row. *)
Example history_overflow :
  get_history (2 ^ 63) (run three_calls)
  = Raise (OverflowError (lit "Python int too large to convert to SQLite INTEGER")).
Proof. vm_compute. reflexivity. Qed.

Example history_underflow :
  get_history (- 2 ^ 63 - 1) (run three_calls)
  = Raise (OverflowError (lit "Python int too large to convert to SQLite INTEGER")).
Proof. vm_compute. reflexivity. Qed.

Example history_least_limit :
  match get_history (- 2 ^ 63) (run three_calls) with
  | Ok out => map h_id out
  | Raise _ => []
  end
  = [1%Z; 3%Z; 2%Z].
Proof. vm_compute. reflexivity. Qed.

Example unlimited_history :
  exists item, get_history (-1) [crime_row] = Ok [item].
Proof. eexists. vm_compute. reflexivity. Qed.

Example decode_spaced_array :
  json_loads (lit " [ 1 , -20 ] ") = Ok (VList [VInt 1; VInt (-20)]).
Proof. vm_compute. reflexivity. Qed.

Example decode_trailing_comma :
  json_loads (lit "[1,]") = Raise (JSONDecodeError (json_error_text (lit "[1,]"))).
Proof. vm_compute. reflexivity. Qed.

Example decode_leading_zero :
  json_loads (lit "[01]") = Raise (JSONDecodeError (json_error_text (lit "[01]"))).
Proof. vm_compute. reflexivity. Qed.

Example decode_repeated_key :
  json_loads (lit "{" ++ quoted "k" ++ lit ":1, " ++ quoted "z" ++ lit ":2, "
              ++ quoted "k" ++ lit ":3}")
  = Ok (VDict [(lit "k", VInt 3); (lit "z", VInt 2)]).
Proof. vm_compute. reflexivity. Qed.

Example decode_surrogate_pair :
  json_loads (quoted "\ud83d\ude00 \n") = Ok (VStr [128512; SPACE; LF]).
Proof. vm_compute. reflexivity. Qed.

Example decode_nested :
  json_loads (lit "[[[[]]], {}, 1.5e3, true]")
  = Ok (VList [VList [VList [VList []]]; VDict []; VFloat (lit "1.5e3"); VBool true]).
Proof. vm_compute. reflexivity. Qed.

Example encode_control_characters :
  json_dumps (VStr [QUOTE; BACKSLASH; LF; 1; 31; 233])
  = [QUOTE] ++ lit "\" ++ [QUOTE] ++ lit "\\\n\u0001\u001f" ++ [233; QUOTE].
Proof. vm_compute. reflexivity. Qed.

Example object_call :
  (recommend (answering object_reply noon) crime_payload []).1
  = Return [suggestion (lit "Heat") (Some (lit "1995")) None].
Proof. vm_compute. reflexivity. Qed.

Example fallback_call :
  (recommend
     {| responses_create := fun _ =>
          Replied {| output_text := None;
                     output := [VDict [(lit "content",
                                        VList [VDict [(lit "text", VStr prose_reply)]])]] |};
        utcnow := noon |}
     crime_payload []).1
  = Return [suggestion (lit "Heat") None None].
Proof. vm_compute. reflexivity. Qed.

Example history_order :
  match get_history default_limit [crime_row; later_row] with
  | Ok out => map h_created_at out
  | Raise _ => []
  end
  = [lit "2024-05-17T19:30:00.250000"; lit "2024-05-17T12:00:00"].
Proof. vm_compute. reflexivity. Qed.

Example iso_noon : isoformat noon = lit "2024-05-17T12:00:00".
Proof. vm_compute. reflexivity. Qed.

Example iso_microseconds :
  isoformat {| year := 987; month := 1; day := 2; hour := 3; minute := 4;
               second := 5; microsecond := 60 |}
  = lit "0987-01-02T03:04:05.000060".
Proof. vm_compute. reflexivity. Qed.

(** C1, on a request of a space, a tab and a no-break space. *)
Lemma blank_input_is_rejected_witness :
  exists detail,
    recommend (failing (lit "unreachable") noon) blank_payload [crime_row]
    = (HTTPException 400 detail, [crime_row])
    /\ handle [crime_row] (Recommend (failing (lit "unreachable") noon) blank_payload)
       = [crime_row].
Proof. apply blank_input_is_rejected. reflexivity. Defined.

(** C2, on a provider whose call raises. *)
Lemma upstream_failure_is_500_witness :
  recommend (failing (lit "timeout") noon) crime_payload []
  = (HTTPException 500 (lit "OpenAI API request failed: timeout"), []).
Proof.
  destruct (upstream_failure_is_500 (failing (lit "timeout") noon) crime_payload [])
    as (_ & Hdetail & _); [reflexivity|].
  apply Hdetail. apply (call_failed _ _ (lit "timeout")). reflexivity.
Defined.

(** C3, on the reply wrapped in prose. *)
Lemma bracketed_array_is_extracted_witness :
  Str.slice prose_reply (Str.find LBRACKET prose_reply)
    (Str.rfind RBRACKET prose_reply + 1) = prose_array
  /\ extract_array prose_reply = Ok [VStr (lit " Heat "); VInt 7]
  /\ ask_openai_for_movies (answering prose_reply noon) (lit " crime ")
     = Ok [VStr (lit " Heat "); VInt 7]
  /\ recommend (answering prose_reply noon) crime_payload []
     = (Return [suggestion (lit "Heat") None None], [crime_row]).
Proof.
  apply (bracketed_array_is_extracted (answering prose_reply noon) crime_payload []
           prose_response prose_array [VStr (lit " Heat "); VInt 7]).
  - reflexivity.
  - reflexivity.
  - intros l0 H. vm_compute in H. discriminate H.
  - exists (lit "Here you go: "), ([QUOTE] ++ lit " Heat " ++ [QUOTE] ++ lit ", 7"),
      (lit " Enjoy!").
    repeat split.
    + intros H. simpl in H. intuition discriminate.
    + intros H. simpl in H. intuition discriminate.
  - vm_compute. reflexivity.
Defined.

(** C4, as worded, fails on a bare string with spaces around it: the
    record gets the title without them. *)
Lemma titles_untouched_counterexample :
  ~ titles_untouched [VStr (lit " Heat ")].
Proof.
  unfold titles_untouched. intros H. vm_compute in H.
  inversion H; subst; discriminate.
Qed.

(** C5, as worded, fails on an array with a number in it: two elements,
    one recommendation. *)
Lemma equal_length_counterexample :
  ~ equal_length (answering prose_reply noon) crime_payload [].
Proof.
  intros H. specialize (H _ _ _ prose_helper prose_call). discriminate H.
Qed.

(** C5, amended, on the same array. *)
Lemma recommendations_count_witness :
  length [suggestion (lit "Heat") None None]
  = length (List.filter kept [VStr (lit " Heat "); VInt 7])
  /\ (length [suggestion (lit "Heat") None None]
      <= length [VStr (lit " Heat "); VInt 7])%nat
  /\ (forallb kept [VStr (lit " Heat "); VInt 7] = true ->
      length [suggestion (lit "Heat") None None]
      = length [VStr (lit " Heat "); VInt 7]).
Proof.
  apply (recommendations_count (answering prose_reply noon) crime_payload [] [crime_row]).
  - vm_compute. reflexivity.
  - vm_compute. reflexivity.
Defined.

(** C7, as worded, fails on a negative limit: SQLite then applies no bound
    and the one stored row is listed. *)
Lemma at_most_counterexample :
  ~ at_most (-1) (run [Recommend (answering prose_reply noon) crime_payload]).
Proof.
  intros H. destruct unlimited_history as [item Hitem].
  specialize (H [item] Hitem). simpl in H. lia.
Qed.

(** C7, amended, on a limit of two and the table of three rows that were
    not stored in the order of their time stamps. *)
Lemma history_newest_first_witness :
  exists sorted out,
    get_history 2 (run three_calls) = Ok out
    /\ sorted ≡ₚ run three_calls
    /\ StronglySorted newer_first sorted
    /\ Forall2 shows (take (Z.to_nat 2) sorted) out
    /\ (Z.of_nat (length out) <= 2)%Z.
Proof. apply history_newest_first; lia. Defined.

(** C8, on the reply wrapped in prose. *)
Lemma stored_list_round_trip_witness :
  exists r,
    [crime_row] = [] ++ [r]
    /\ json_loads (Recommendation.recommended_movies r)
       = Ok (VList [suggestion (lit "Heat") None None])
    /\ exists h, history_item r = Ok h
                 /\ h_recommended_movies h = VList [suggestion (lit "Heat") None None].
Proof.
  apply (stored_list_round_trip (answering prose_reply noon) crime_payload).
  vm_compute. reflexivity.
Defined.

(** C9, as worded, fails on an input with spaces around it: the row holds
    the text without them. *)
Lemma raw_input_persisted_counterexample :
  ~ raw_input_persisted (answering prose_reply noon) crime_payload [].
Proof.
  intros H. destruct (H _ _ prose_call) as (r & Hlast & Hr).
  vm_compute in Hlast. injection Hlast as <-. vm_compute in Hr. discriminate Hr.
Qed.

(** C9, amended, on the same input. *)
Lemma stripped_input_is_persisted_witness :
  exists r,
    [crime_row] = [] ++ [r]
    /\ Recommendation.user_input r = Str.strip (lit " crime ").
Proof.
  apply (stripped_input_is_persisted (answering prose_reply noon) crime_payload [] [crime_row]
           [suggestion (lit "Heat") None None]).
  vm_compute. reflexivity.
Defined.

(** C10, on a reply that is an array of a number and a null. *)
Lemma empty_array_is_a_success_witness :
  recommend (answering (lit "[7, null]") noon) crime_payload []
  = (Return [],
     [] ++ [{| Recommendation.id := next_id [];
               Recommendation.user_input := Str.strip (lit " crime ");
               Recommendation.recommended_movies := [LBRACKET; RBRACKET];
               Recommendation.created_at := noon |}])
  /\ json_loads [LBRACKET; RBRACKET] = Ok (VList []).
Proof.
  apply (empty_array_is_a_success (answering (lit "[7, null]") noon) crime_payload []
           {| output_text := Some (lit "[7, null]"); output := [] |}
           [VInt 7; VNone]).
  - reflexivity.
  - reflexivity.
  - reflexivity.
  - vm_compute. reflexivity.
  - reflexivity.
Defined.

(** * Further properties on concrete requests *)

(** X2, on the input with a space at each end. *)
Lemma stored_input_is_the_core_witness :
  exists r pre post,
    [crime_row] = [] ++ [r]
    /\ lit " crime " = pre ++ Recommendation.user_input r ++ post
    /\ only_whitespace pre = true /\ only_whitespace post = true
    /\ trimmed (Recommendation.user_input r) = true
    /\ Recommendation.user_input r <> [].
Proof.
  apply (stored_input_is_the_core (answering prose_reply noon) crime_payload [] [crime_row]
           [suggestion (lit "Heat") None None]).
  vm_compute. reflexivity.
Defined.

(** X6, on the object reply between a blank line and a line end. *)
Lemma clean_array_is_taken_as_is_witness :
  ask_openai_for_movies (answering ([SPACE; LF] ++ object_reply ++ [LF]) noon)
    (lit " crime ")
  = Ok [VDict [(lit "title", VStr (lit " Heat "));
               (lit "year", VInt 1995);
               (lit "reason", VNone)]]
  /\ recommend (answering ([SPACE; LF] ++ object_reply ++ [LF]) noon) crime_payload []
     = (Return [suggestion (lit "Heat") (Some (lit "1995")) None],
        [{| Recommendation.id := 1;
            Recommendation.user_input := lit "crime";
            Recommendation.recommended_movies :=
              json_dumps (VList [suggestion (lit "Heat") (Some (lit "1995")) None]);
            Recommendation.created_at := noon |}]).
Proof.
  apply (clean_array_is_taken_as_is
           (answering ([SPACE; LF] ++ object_reply ++ [LF]) noon) crime_payload []
           {| output_text := Some ([SPACE; LF] ++ object_reply ++ [LF]); output := [] |}
           [SPACE; LF] object_reply [LF]
           [VDict [(lit "title", VStr (lit " Heat "));
                   (lit "year", VInt 1995);
                   (lit "reason", VNone)]]).
  - reflexivity.
  - reflexivity.
  - reflexivity.
  - reflexivity.
  - reflexivity.
  - vm_compute. reflexivity.
  - vm_compute. reflexivity.
Defined.

(** X7, replaying the list stored for the reply wrapped in prose. *)
Lemma replayed_list_is_reproduced_witness :
  (recommend (answering (Recommendation.recommended_movies crime_row) evening)
     crime_payload [crime_row]).1
  = Return [suggestion (lit "Heat") None None].
Proof.
  apply (replayed_list_is_reproduced (answering prose_reply noon)
           (answering (Recommendation.recommended_movies crime_row) evening)
           crime_payload crime_payload [] [crime_row] [crime_row]
           [suggestion (lit "Heat") None None]
           {| output_text := Some (Recommendation.recommended_movies crime_row);
              output := [] |}).
  - vm_compute. reflexivity.
  - reflexivity.
  - reflexivity.
  - exists crime_row. split; reflexivity.
Defined.

(** X8, on a reply in plain words. *)
Lemma reply_without_bracket_is_500_witness :
  recommend (answering (lit "Sorry, no idea.") noon) crime_payload []
  = (HTTPException 500
       (lit "Model response did not contain a JSON array. Raw response: "
        ++ lit "Sorry, no idea."),
     []).
Proof.
  apply (reply_without_bracket_is_500 (answering (lit "Sorry, no idea.") noon)
           crime_payload []
           {| output_text := Some (lit "Sorry, no idea."); output := [] |}).
  - reflexivity.
  - reflexivity.
  - reflexivity.
  - left. vm_compute. intuition discriminate.
Defined.

(** X9, on a reply whose second piece carries a number for text. *)
Lemma bad_piece_empties_the_response_witness :
  recommend {| responses_create := fun _ => Replied bad_piece_response; utcnow := noon |}
    crime_payload []
  = (HTTPException 500 (lit "OpenAI response was empty"), []).
Proof.
  apply (bad_piece_empties_the_response
           {| responses_create := fun _ => Replied bad_piece_response; utcnow := noon |}
           crime_payload [] bad_piece_response).
  - reflexivity.
  - reflexivity.
  - reflexivity.
  - exists [(lit "content", VList [VDict [(lit "text", VInt 7)]])],
      [VDict [(lit "text", VInt 7)]], [(lit "text", VInt 7)], (VInt 7).
    repeat split.
    + right. left. reflexivity.
    + left. reflexivity.
    + intros s. discriminate.
Defined.

(** X10, on the input with a space at each end and two providers that
    answer it alike. *)
Lemma request_carries_the_raw_input_witness :
  (responses_create (answering prose_reply noon) (make_request (lit " crime "))
   = responses_create
       {| responses_create := fun _ => Replied prose_response; utcnow := evening |}
       (make_request (lit " crime ")) ->
   utcnow (answering prose_reply noon)
   = utcnow {| responses_create := fun _ => Replied prose_response; utcnow := evening |} ->
   recommend (answering prose_reply noon) crime_payload [crime_row]
   = recommend {| responses_create := fun _ => Replied prose_response; utcnow := evening |}
       crime_payload [crime_row])
  /\ (forall other, make_request other = make_request (lit " crime ")
                    <-> other = lit " crime ")
  /\ recommend (echoing evening) crime_payload [crime_row]
     = (HTTPException 500
          (lit "OpenAI API request failed: "
           ++ lit "User preference: " ++ lit " crime " ++ [LF]
           ++ lit "Return 3-5 movie suggestions as a JSON array."),
        [crime_row]).
Proof.
  apply (request_carries_the_raw_input
           {| responses_create := fun _ => Replied prose_response; utcnow := evening |}
           (answering prose_reply noon) crime_payload [crime_row]).
  reflexivity.
Defined.

(** X12, on the table of three rows, with a limit of three and with a
    negative one. *)
Lemma history_lists_every_row_witness :
  (exists sorted out,
      get_history 3 (run three_calls) = Ok out
      /\ sorted ≡ₚ run three_calls
      /\ StronglySorted newer_first sorted
      /\ Forall2 shows sorted out)
  /\ (exists sorted out,
        get_history (-1) (run three_calls) = Ok out
        /\ sorted ≡ₚ run three_calls
        /\ StronglySorted newer_first sorted
        /\ Forall2 shows sorted out).
Proof.
  split.
  - apply history_lists_every_row; [lia|]. right. vm_compute. discriminate.
  - apply history_lists_every_row; [lia|]. left. lia.
Defined.

(** X13, on the third of the three calls, made at noon on a table of two
    rows. *)
Lemma history_shows_the_call_witness :
  exists out h,
    get_history default_limit (run three_calls) = Ok out
    /\ In h out
    /\ h_user_input h = Str.strip (lit " crime ")
    /\ h_recommended_movies h = VList []
    /\ h_created_at h = isoformat noon.
Proof.
  apply (history_shows_the_call
           [Recommend (answering prose_reply evening) crime_payload;
            Recommend (answering object_reply morning) heist_payload]
           (answering (lit "[]") noon) crime_payload).
  - vm_compute. reflexivity.
  - unfold default_limit. lia.
  - right. vm_compute. reflexivity.
Defined.

(** X14, on a call in the evening after one at noon. *)
Lemma history_begins_with_the_latest_call_witness :
  exists h rest,
    get_history 1
      (recommend (answering object_reply evening) crime_payload
         (run [Recommend (answering prose_reply noon) crime_payload])).2
    = Ok (h :: rest)
    /\ h_user_input h = Str.strip (lit " crime ")
    /\ h_recommended_movies h
       = VList [suggestion (lit "Heat") (Some (lit "1995")) None]
    /\ h_created_at h = isoformat evening.
Proof.
  apply (history_begins_with_the_latest_call
           [Recommend (answering prose_reply noon) crime_payload]
           (answering object_reply evening) crime_payload).
  - vm_compute. reflexivity.
  - vm_compute. reflexivity.
  - lia.
  - discriminate.
Defined.
